(** * The client coordinator of libraries/client/client.cpp

    A shallow embedding of [bts::client::detail::client_impl] and of
    [bts::client::client::broadcast_transaction], together with the
    properties of the inbound handler, the item server, the transport seam
    and the trustee loop.

    The coordinator is stateful C++: member functions mutate the object, may
    throw [fc::exception]s, and write to the log.  They are embedded as
    computations of a small monad [M] that threads the [client_impl] object,
    collects the log lines and carries the way the call ended ([outcome]).

    The chain database, the wallet, the two transports, the hash functions of
    the blockchain library and the numeric message tags are declared in
    headers that are not part of this translation unit.  They are taken as
    parameters, one type class per collaborator. *)

From Stdlib Require Import ZArith List Lia.
From stdpp Require Import base option list gmap strings.

Local Open Scope Z_scope.

(** ** Machine integers *)

(** [uint32_t] values are integers in [0, 2^32); arithmetic wraps around. *)
Definition uint32_modulus : Z := 2 ^ 32.
Definition uint32_max : Z := 4294967295.      (* (uint32_t)-1 *)
Definition wrap32 (z : Z) : Z := z mod uint32_modulus.

Definition u32_sub (a b : Z) : Z := wrap32 (a - b).
Definition u32_incr (a : Z) : Z := wrap32 (a + 1).

(** [fc::time_point] and [fc::microseconds]: a count of microseconds. *)
Definition fc_seconds (s : Z) : Z := s * 1000000.

(** ** Exceptions, outcomes and the log *)

Inductive fc_exception : Type :=
| key_not_found_exception
| assert_exception
| canceled_exception
| exception (code : Z).          (* any other fc::exception of a collaborator *)

(** How a call ends: it returns, it throws, or the process stops (a failed
    C [assert], a null pointer dereference). *)
Inductive outcome (A : Type) : Type :=
| Returned (a : A)
| Thrown (e : fc_exception)
| Aborted.
Arguments Returned {A} a.
Arguments Thrown {A} e.
Arguments Aborted {A}.

Inductive log_level : Type := info | warn | error.
Definition log_entry : Type := log_level * string.

(** ** Data of the blockchain and network libraries *)

Record signed_block_header : Type := {
  block_num : Z;                 (* uint32_t *)
  prev : Z;
  timestamp : Z;
  trustee_signature : Z
}.

Record trx_block (trx : Type) : Type := {
  header : signed_block_header;  (* trx_block derives from the header *)
  trxs : list trx
}.
Arguments header {trx} _.
Arguments trxs {trx} _.

(** [bts::net::item_id]; [item_hash_t()] is the zero hash. *)
Record item_id : Type := {
  item_type : Z;
  item_hash : Z
}.
Definition zero_hash : Z := 0.

(** [block_message(id, blk, sig)] and [trx_message(trx)]. *)
Inductive message (trx : Type) : Type :=
| block_message (block_id : Z) (block : trx_block trx) (signature : Z)
| trx_message (t : trx).
Arguments block_message {trx} block_id block signature.
Arguments trx_message {trx} t.

(** ** Collaborators *)

(** bts/blockchain: transactions, the two [id()] hashes, block signing and
    the [chain_database].  [push_block] either yields the extended chain or
    throws and leaves the chain as it was; [evaluate_transaction] is a query
    that throws on an invalid transaction; the [fetch_] lookups answer [None]
    where the C++ throws [fc::key_not_found_exception]. *)
Class Blockchain : Type := {
  signed_transaction : Type;
  transaction_id : signed_transaction -> Z;
  header_id : signed_block_header -> Z;
  sign_header : Z -> signed_block_header -> outcome Z;
  chain_database : Type;
  push_block : trx_block signed_transaction -> chain_database -> outcome chain_database;
  evaluate_transaction : signed_transaction -> chain_database -> outcome unit;
  get_head_block : chain_database -> signed_block_header;
  head_block_num : chain_database -> Z;
  fetch_block_num : Z -> chain_database -> option Z;
  fetch_block : Z -> chain_database -> option signed_block_header;
  fetch_trx_block : Z -> chain_database -> option (trx_block signed_transaction)
}.

(** bts/wallet: candidate assembly may fail; scanning the chain has no
    failure mode. *)
Class Wallet (B : Blockchain) : Type := {
  wallet : Type;
  generate_next_block :
    chain_database -> list signed_transaction -> wallet -> outcome (trx_block signed_transaction);
  scan_chain : chain_database -> Z -> wallet -> wallet
}.

(** bts/net: the client/server transport and the p2p node.  A broadcast
    either yields the transport's next state or throws. *)
Class Network (B : Blockchain) : Type := {
  chain_client : Type;
  chain_client_broadcast_transaction : signed_transaction -> chain_client -> outcome chain_client;
  chain_client_broadcast_block : trx_block signed_transaction -> chain_client -> outcome chain_client;
  node : Type;
  node_broadcast : message signed_transaction -> node -> outcome node
}.

(** bts/client/messages.hpp: the numeric tags of the two message types. *)
Class MessageTypes : Type := {
  trx_message_type : Z;
  block_message_type : Z;
  message_types_distinct : trx_message_type <> block_message_type
}.

Section Client.

Context {B : Blockchain} {W : Wallet B} {N : Network B} {MT : MessageTypes}.

Abbreviation block := (trx_block signed_transaction).
Abbreviation net_message := (message signed_transaction).

(** ** The coordinator object *)

Record client_impl : Type := {
  _trustee_key : Z;
  _last_block : Z;
  _chain_client : option chain_client;
  _p2p_node : option node;
  _chain_db : chain_database;
  _pending_trxs : gmap Z signed_transaction;
  _wallet : wallet
}.

(** The constructor creates exactly one of the two transports: the p2p node
    when [use_p2p], the chain client otherwise.  The code tells the modes
    apart by testing [_chain_client]. *)

(** ** The monad of member functions *)

Definition M (A : Type) : Type :=
  client_impl -> outcome A * client_impl * list log_entry.

Definition ret {A} (a : A) : M A := fun c => (Returned a, c, []).

Definition bind {A C} (m : M A) (k : A -> M C) : M C :=
  fun c =>
    match m c with
    | (Returned a, c1, l1) =>
        match k a c1 with
        | (o, c2, l2) => (o, c2, l1 ++ l2)
        end
    | (Thrown e, c1, l1) => (Thrown e, c1, l1)
    | (Aborted, c1, l1) => (Aborted, c1, l1)
    end.

Definition throw {A} (e : fc_exception) : M A := fun c => (Thrown e, c, []).
Definition abort {A} : M A := fun c => (Aborted, c, []).
Definition gets {A} (f : client_impl -> A) : M A := fun c => (Returned (f c), c, []).
Definition modify (f : client_impl -> client_impl) : M unit :=
  fun c => (Returned tt, f c, []).
Definition log (lvl : log_level) (text : string) : M unit :=
  fun c => (Returned tt, c, [(lvl, text)]).

(** The way a collaborator's call ended becomes the way the computation
    continues. *)
Definition lift {A} (o : outcome A) : M A := fun c => (o, c, []).

(** [try { m } catch (const fc::exception& e) { h e }] *)
Definition try_catch {A} (m : M A) (h : fc_exception -> M A) : M A :=
  fun c =>
    match m c with
    | (Thrown e, c1, l1) =>
        match h e c1 with
        | (o, c2, l2) => (o, c2, l1 ++ l2)
        end
    | r => r
    end.

(** [FC_ASSERT(cond)] *)
Definition FC_ASSERT (cond : bool) : M unit :=
  if cond then ret tt else throw assert_exception.


Notation "x <- m ;; k" := (bind m (fun x => k))
  (at level 100, m at next level, right associativity).
Notation "m ;;; k" := (bind m (fun _ => k))
  (at level 100, right associativity).

(** Record updates, one per member the code assigns. *)
Definition set_last_block (t : Z) (c : client_impl) : client_impl :=
  {| _trustee_key := _trustee_key c; _last_block := t;
     _chain_client := _chain_client c; _p2p_node := _p2p_node c;
     _chain_db := _chain_db c; _pending_trxs := _pending_trxs c;
     _wallet := _wallet c |}.
Definition set_chain_client (cc : option chain_client) (c : client_impl) : client_impl :=
  {| _trustee_key := _trustee_key c; _last_block := _last_block c;
     _chain_client := cc; _p2p_node := _p2p_node c;
     _chain_db := _chain_db c; _pending_trxs := _pending_trxs c;
     _wallet := _wallet c |}.
Definition set_p2p_node (n : option node) (c : client_impl) : client_impl :=
  {| _trustee_key := _trustee_key c; _last_block := _last_block c;
     _chain_client := _chain_client c; _p2p_node := n;
     _chain_db := _chain_db c; _pending_trxs := _pending_trxs c;
     _wallet := _wallet c |}.
Definition set_chain_db (db : chain_database) (c : client_impl) : client_impl :=
  {| _trustee_key := _trustee_key c; _last_block := _last_block c;
     _chain_client := _chain_client c; _p2p_node := _p2p_node c;
     _chain_db := db; _pending_trxs := _pending_trxs c;
     _wallet := _wallet c |}.
Definition set_pending_trxs (m : gmap Z signed_transaction) (c : client_impl) : client_impl :=
  {| _trustee_key := _trustee_key c; _last_block := _last_block c;
     _chain_client := _chain_client c; _p2p_node := _p2p_node c;
     _chain_db := _chain_db c; _pending_trxs := m;
     _wallet := _wallet c |}.
Definition set_wallet (w : wallet) (c : client_impl) : client_impl :=
  {| _trustee_key := _trustee_key c; _last_block := _last_block c;
     _chain_client := _chain_client c; _p2p_node := _p2p_node c;
     _chain_db := _chain_db c; _pending_trxs := _pending_trxs c;
     _wallet := w |}.

(** ** Inbound handler *)

(** [for (auto trx : block.trxs) _pending_trxs.erase(trx.id());] *)
Definition erase_trxs (ts : list signed_transaction) (m : gmap Z signed_transaction)
  : gmap Z signed_transaction :=
  foldl (fun acc trx => delete (transaction_id trx) acc) m ts.

Definition on_new_block (blk : block) : M unit :=
  try_catch
    (db <- gets _chain_db ;;
     db' <- lift (push_block blk db) ;;
     modify (set_chain_db db'))
    (fun e =>
       log warn "Error pushing block ${block}: ${error}" ;;;
       throw e) ;;;
  modify (fun c => set_pending_trxs (erase_trxs (trxs blk) (_pending_trxs c)) c) ;;;
  log info "" ;;;
  modify (fun c => set_wallet (scan_chain (_chain_db c) (block_num (header blk)) (_wallet c)) c).

(** [std::unordered_map::insert] keeps the old value of a key that is
    present; its [.second] tells whether the pair was inserted. *)
Definition pending_insert (trx : signed_transaction) (m : gmap Z signed_transaction)
  : gmap Z signed_transaction * bool :=
  match m !! transaction_id trx with
  | Some _ => (m, false)
  | None => (<[transaction_id trx := trx]> m, true)
  end.

Definition on_new_transaction (trx : signed_transaction) : M unit :=
  db <- gets _chain_db ;;
  lift (evaluate_transaction trx db) ;;;   (* throws exception if invalid trx. *)
  pending <- gets _pending_trxs ;;
  let r := pending_insert trx pending in
  modify (set_pending_trxs (fst r)) ;;;
  if snd r then log info "new transaction"
  else log warn "duplicate transaction, ignoring".

Definition get_pending_transactions : M (list signed_transaction) :=
  gets (fun c => snd <$> map_to_list (_pending_trxs c)).

(** ** Item server *)

Definition has_item (id : item_id) : M bool := ret false.

(** The body of the [for] loop of [get_item_ids], [count] times: increment
    [last_seen_block_num], fetch that header, push its id.  A missing header
    trips [assert(false && "I assume this can never happen")]. *)
Fixpoint collect_item_ids (db : chain_database) (count : nat) (last_seen_block_num : Z)
  : M (list Z) :=
  match count with
  | O => ret []
  | S count' =>
      let last_seen_block_num := u32_incr last_seen_block_num in
      hdr <- match fetch_block last_seen_block_num db with
             | Some h => ret h
             | None => abort
             end ;;
      rest <- collect_item_ids db count' last_seen_block_num ;;
      ret (header_id hdr :: rest)
  end.

(** Returns the hashes and the final value of [remaining_item_count]. *)
Definition get_item_ids (from_id : item_id) (limit : Z) : M (list Z * Z) :=
  FC_ASSERT (item_type from_id =? block_message_type) ;;;
  db <- gets _chain_db ;;
  match
    match fetch_block_num (item_hash from_id) db with
    | Some n => inl n
    | None =>                              (* catch (fc::key_not_found_exception&) *)
        if item_hash from_id =? zero_hash then inl uint32_max
        else inr (@nil Z, 0)
    end
  with
  | inr early => ret early
  | inl last_seen_block_num =>
      let remaining_item_count := u32_sub (head_block_num db) last_seen_block_num in
      let items_to_get_this_iteration := Z.min limit remaining_item_count in
      hashes_to_return <-
        collect_item_ids db (Z.to_nat items_to_get_this_iteration) last_seen_block_num ;;
      ret (hashes_to_return, u32_sub remaining_item_count items_to_get_this_iteration)
  end.

Definition get_item (id : item_id) : M net_message :=
  db <- gets _chain_db ;;
  if item_type id =? block_message_type then
    block_number <- match fetch_block_num (item_hash id) db with
                    | Some n => ret n
                    | None => throw key_not_found_exception
                    end ;;
    blk <- match fetch_trx_block block_number db with
           | Some b => ret b
           | None => throw key_not_found_exception
           end ;;
    let block_id := header_id (header blk) in
    FC_ASSERT (item_hash id =? block_id) ;;;
    ret (block_message block_id blk (trustee_signature (header blk)))
  else
    (if item_type id =? trx_message_type then
       pending <- gets _pending_trxs ;;
       (* the message is filled in and then dropped at the closing brace *)
       let trx_message_to_send := trx_message <$> pending !! item_hash id in
       ret tt
     else ret tt) ;;;
    throw key_not_found_exception.

(** ** Transport seam: client::broadcast_transaction *)

Definition broadcast_transaction (trx : signed_transaction) : M unit :=
  cc <- gets _chain_client ;;
  match cc with
  | Some c =>
      c' <- lift (chain_client_broadcast_transaction trx c) ;;
      modify (set_chain_client (Some c'))
  | None =>
      p <- gets _p2p_node ;;
      match p with
      | None => abort
      | Some n =>
          n' <- lift (node_broadcast (trx_message trx) n) ;;
          modify (set_p2p_node (Some n')) ;;;
          (* p2p doesn't send messages back to the originator *)
          on_new_transaction trx
      end
  end.


(** ** Trustee loop *)

(** [blk.sign(_trustee_key)] sets [trustee_signature]. *)
Definition with_signature (sig : Z) (blk : block) : block :=
  {| header := {| block_num := block_num (header blk);
                  prev := prev (header blk);
                  timestamp := timestamp (header blk);
                  trustee_signature := sig |};
     trxs := trxs blk |}.

Definition sign (key : Z) (blk : block) : M block :=
  sig <- lift (sign_header key (header blk)) ;;
  ret (with_signature sig blk).

(** What one pass of the [while] loop reads from outside the object: whether
    [_trustee_loop_complete.canceled()] holds at the top, and the two
    readings of [fc::time_point::now()], in the condition and after the
    block went out. *)
Record tick : Type := {
  canceled : bool;
  now_at_check : Z;
  now_after_publish : Z
}.

(** The gate of the [if] in the loop body. *)
Definition production_due (pending_trxs : list signed_transaction) (now last_block : Z) : bool :=
  negb (Nat.eqb (length pending_trxs) 0) && (fc_seconds 30 <? now - last_block).

(** The body of the [try] block. *)
Definition produce_block (pending_trxs : list signed_transaction) (now : Z) : M unit :=
  db <- gets _chain_db ;;
  w <- gets _wallet ;;
  blk <- lift (generate_next_block db pending_trxs w) ;;
  key <- gets _trustee_key ;;
  blk <- sign key blk ;;
  cc <- gets _chain_client ;;
  match cc with
  | Some c =>
      c' <- lift (chain_client_broadcast_block blk c) ;;
      modify (set_chain_client (Some c'))
  | None =>
      p <- gets _p2p_node ;;
      match p with
      | None => abort
      | Some n =>
          n' <- lift (node_broadcast
                        (block_message (header_id (header blk)) blk
                                       (trustee_signature (header blk))) n) ;;
          modify (set_p2p_node (Some n')) ;;;
          (* with the p2p code, if you broadcast something to the network, it
             will not immediately send it back to you *)
          on_new_block blk
      end
  end ;;;
  modify (set_last_block now).

(** One pass of the loop body; the closing [fc::usleep(fc::seconds(1))] only
    yields to the scheduler. *)
Definition trustee_iteration (t : tick) : M unit :=
  pending_trxs <- get_pending_transactions ;;
  last_block <- gets _last_block ;;
  if production_due pending_trxs (now_at_check t) last_block then
    try_catch
      (produce_block pending_trxs (now_after_publish t))
      (fun e => log error "error producing block?: ${e}")
  else ret tt.

(** The [while] loop over the passes the scheduler grants it: it leaves at
    the first pass that finds the task canceled. A finite list of ticks
    describes a prefix of the run. *)
Fixpoint trustee_iterations (ts : list tick) : M unit :=
  match ts with
  | [] => ret tt
  | t :: ts' =>
      if canceled t then ret tt
      else trustee_iteration t ;;; trustee_iterations ts'
  end.

Definition trustee_loop (ts : list tick) : M unit :=
  modify (fun c => set_last_block (timestamp (get_head_block (_chain_db c))) c) ;;;
  trustee_iterations ts.

End Client.

(** ** What the properties speak about *)

Section Vocabulary.

Context {B : Blockchain} {W : Wallet B} {N : Network B} {MT : MessageTypes}.

(** The id of the block at height [n], when the chain has one. *)
Definition id_of (db : chain_database) (n : Z) : option Z :=
  header_id <$> fetch_block n db.

(** The ids of the blocks [lo … hi], in ascending height order; [Some []]
    when [hi < lo]. *)
Definition ids_of_blocks (db : chain_database) (lo hi : Z) : option (list Z) :=
  mapM (id_of db) (seqZ lo (hi - lo + 1)).

(** A contiguous chain of height [H]: the head is block [H] and every height
    [0 … H] has a block. *)
Definition contiguous_chain (db : chain_database) (H : Z) : Prop :=
  head_block_num db = H /\ 0 <= H <= uint32_max /\
  Forall (fun n => is_Some (fetch_block n db)) (seqZ 0 (H + 1)).

(** What [get_pending_transactions] returns in state [c]. *)
Definition mempool_snapshot (c : client_impl) : list signed_transaction :=
  snd <$> map_to_list (_pending_trxs c).

(** Assembly, signing and publication of a block all go through in state
    [c]: the wallet yields a candidate, the key signs it, and the transport
    in use takes it; with the p2p node this includes applying the block to
    the own chain. *)
Definition publication_succeeds (c : client_impl) : Prop :=
  exists blk0 sig,
    generate_next_block (_chain_db c) (mempool_snapshot c) (_wallet c) = Returned blk0 /\
    sign_header (_trustee_key c) (header blk0) = Returned sig /\
    match _chain_client c with
    | Some cc =>
        exists cc', chain_client_broadcast_block (with_signature sig blk0) cc = Returned cc'
    | None =>
        exists n n' db',
          _p2p_node c = Some n /\
          node_broadcast
            (block_message (header_id (header (with_signature sig blk0)))
                           (with_signature sig blk0) sig) n = Returned n' /\
          push_block (with_signature sig blk0) (_chain_db c) = Returned db'
    end.

(** The clock does not run backwards between the two readings of a pass. *)
Definition clock_consistent (t : tick) : Prop :=
  now_at_check t <= now_after_publish t.

End Vocabulary.

(** ** A small node to run the coordinator on

    Blocks are kept in a list indexed by height, transactions are integers
    (the positive ones evaluate), and each transport records what it was
    asked to send. *)

Module Demo.

Definition demo_header_id (h : signed_block_header) : Z := 500 + block_num h.
Definition demo_transaction_id (t : Z) : Z := 7000 + t.

Fixpoint index_of_id (h : Z) (n : Z) (db : list (trx_block Z)) : option Z :=
  match db with
  | [] => None
  | b :: rest =>
      if demo_header_id (header b) =? h then Some n
      else index_of_id h (n + 1) rest
  end.

Definition demo_nth {A} (n : Z) (l : list A) : option A :=
  if n <? 0 then None else l !! Z.to_nat n.

Definition genesis_header : signed_block_header :=
  {| block_num := 0; prev := 0; timestamp := 0; trustee_signature := 0 |}.

#[export] Instance demo_blockchain : Blockchain := {|
  signed_transaction := Z;
  transaction_id := demo_transaction_id;
  header_id := demo_header_id;
  sign_header := fun key h => if key =? 0 then Thrown (exception 3) else Returned (key + block_num h);
  chain_database := list (trx_block Z);
  push_block := fun b db =>
    if block_num (header b) =? Z.of_nat (length db) then Returned (db ++ [b])
    else Thrown (exception 1);
  evaluate_transaction := fun t db =>
    if 0 <? t then Returned tt else Thrown (exception 2);
  get_head_block := fun db => List.last (header <$> db) genesis_header;
  head_block_num := fun db =>
    match db with [] => uint32_max | _ => Z.of_nat (length db) - 1 end;
  fetch_block_num := fun h db => index_of_id h 0 db;
  fetch_block := fun n db => header <$> demo_nth n db;
  fetch_trx_block := fun n db => demo_nth n db
|}.

#[export] Instance demo_wallet : Wallet demo_blockchain := {|
  wallet := Z;
  generate_next_block := fun db pending w =>
    Returned {| header := {| block_num := Z.of_nat (length db);
                             prev := demo_header_id (List.last (header <$> db) genesis_header);
                             timestamp := 0;
                             trustee_signature := 0 |};
                trxs := pending |};
  scan_chain := fun db n w => n
|}.

#[export] Instance demo_network : Network demo_blockchain := {|
  chain_client := list (message Z);
  chain_client_broadcast_transaction := fun t sent => Returned (sent ++ [trx_message t]);
  chain_client_broadcast_block := fun b sent =>
    Returned (sent ++ [block_message (demo_header_id (header b)) b (trustee_signature (header b))]);
  node := list (message Z);
  node_broadcast := fun m sent => Returned (sent ++ [m])
|}.

Lemma demo_types_distinct : 1000 <> 1001.
Proof. lia. Qed.

#[export] Instance demo_message_types : MessageTypes := {|
  trx_message_type := 1000;
  block_message_type := 1001;
  message_types_distinct := demo_types_distinct
|}.

Definition demo_block (n : Z) : trx_block Z :=
  {| header := {| block_num := n;
                  prev := if n =? 0 then 0 else 500 + n - 1;
                  timestamp := fc_seconds (10 * n);
                  trustee_signature := 9 |};
     trxs := [] |}.

(** Blocks 0 … [H]. *)
Definition demo_chain (H : Z) : list (trx_block Z) := demo_block <$> seqZ 0 (H + 1).

Definition demo_client (use_p2p : bool) (db : list (trx_block Z)) (pending : list Z)
  : client_impl :=
  {| _trustee_key := 42;
     _last_block := 0;
     _chain_client := if use_p2p then None else Some [];
     _p2p_node := if use_p2p then Some [] else None;
     _chain_db := db;
     _pending_trxs := list_to_map ((fun t => (demo_transaction_id t, t)) <$> pending);
     _wallet := 0 |}.

(** The states and inputs of the examples. *)
Definition synced_peer : client_impl := demo_client true (demo_chain 10) [].
Definition fresh_peer : client_impl := demo_client true [] [].
Definition peer_with_5 : client_impl := demo_client true [] [5].
Definition server_client_with_5 : client_impl := demo_client false [] [5].

(** A peer whose trustee key cannot sign. *)
Definition keyless_peer : client_impl :=
  {| _trustee_key := 0;
     _last_block := 0;
     _chain_client := None;
     _p2p_node := Some [];
     _chain_db := [];
     _pending_trxs := {[ 7005 := 5 ]};
     _wallet := 0 |}.

Definition block_of (n : Z) (ts : list Z) : trx_block (@signed_transaction demo_blockchain) :=
  {| header := {| block_num := n; prev := 0; timestamp := 0; trustee_signature := 9 |};
     trxs := ts |}.

Definition tick_at (check publish : Z) : tick :=
  {| canceled := false;
     now_at_check := fc_seconds check;
     now_after_publish := fc_seconds publish |}.

End Demo.

(** * The rest of the coordinator

    The message dispatcher of the node delegate and the entry into the p2p
    network, with what they need from headers outside this translation
    unit. *)

(** bts/net/message.hpp: a message as a transport delivers it, a numeric
    tag and packed data. *)
Record wire_message : Type := {
  msg_type : Z;
  data : list Z
}.

(** What [message::as<block_message>()] yields. *)
Record block_message_fields (trx : Type) : Type := {
  bm_block_id : Z;
  bm_block : trx_block trx;
  bm_signature : Z
}.
Arguments bm_block_id {trx} _.
Arguments bm_block {trx} _.
Arguments bm_signature {trx} _.

(** [message::as<T>()]: unpacking may throw on malformed data. *)
Class MessageCodec (B : Blockchain) : Type := {
  as_block_message : wire_message -> outcome (block_message_fields signed_transaction);
  as_trx_message : wire_message -> outcome signed_transaction
}.

(** What [connect_to_p2p_network] needs besides: the id of the head block
    and two operations of the p2p node. *)
Class NodeSync (B : Blockchain) (N : Network B) : Type := {
  head_block_id : chain_database -> Z;
  node_sync_from : item_id -> node -> outcome node;
  node_connect_to_p2p_network : node -> outcome node
}.

Section Delegate.

Context {B : Blockchain} {W : Wallet B} {N : Network B} {MT : MessageTypes}.
Context {MC : MessageCodec B} {NS : NodeSync B N}.

(** The [switch] on [msg_type]: two cases and no default. *)
Definition handle_message (message_to_handle : wire_message) : M unit :=
  if msg_type message_to_handle =? block_message_type then
    bind (lift (as_block_message message_to_handle)) (fun block_message_to_handle =>
    bind (log info "CLIENT: just received block ${id}") (fun _ =>
    on_new_block (bm_block block_message_to_handle)))
  else if msg_type message_to_handle =? trx_message_type then
    bind (lift (as_trx_message message_to_handle)) (fun trx_message_to_handle =>
    on_new_transaction trx_message_to_handle)
  else ret tt.

(** The item the node asks its peers to sync from: the head block, or the
    zero hash when [head_block_num] is [(uint32_t)-1]. *)
Definition head_item_id (db : chain_database) : item_id :=
  {| item_type := block_message_type;
     item_hash := if head_block_num db =? uint32_max then zero_hash
                  else head_block_id db |}.

Definition connect_to_p2p_network : M unit :=
  bind (gets _p2p_node) (fun p =>
  match p with
  | None => ret tt
  | Some n =>
      bind (gets _chain_db) (fun db =>
      bind (lift (node_sync_from (head_item_id db) n)) (fun n1 =>
      bind (modify (set_p2p_node (Some n1))) (fun _ =>
      bind (lift (node_connect_to_p2p_network n1)) (fun n2 =>
      modify (set_p2p_node (Some n2))))))
  end).

(** ** Further vocabulary *)

(** Every pending transaction is stored under its own id. *)
Definition pending_keyed_by_id (c : client_impl) : Prop :=
  map_Forall (fun k trx => transaction_id trx = k) (_pending_trxs c).

(** The indexes of the chain database agree: the id of the header at a
    height resolves to that height, and the full block at that height
    carries that header. *)
Definition chain_indexed (db : chain_database) : Prop :=
  forall n hdr,
    fetch_block n db = Some hdr ->
    fetch_block_num (header_id hdr) db = Some n /\
    exists blk, fetch_trx_block n db = Some blk /\ header blk = hdr.

End Delegate.

Module DemoNet.

Import Demo.

(** Packed data: a transaction is one number, a block its height followed by
    its transactions. *)
#[export] Instance demo_codec : MessageCodec demo_blockchain := {|
  as_block_message := fun m =>
    match data m with
    | n :: ts =>
        Returned {| bm_block_id := demo_header_id (header (block_of n ts));
                    bm_block := block_of n ts;
                    bm_signature := 9 |}
    | [] => Thrown (exception 5)
    end;
  as_trx_message := fun m =>
    match data m with
    | [t] => Returned t
    | _ => Thrown (exception 5)
    end
|}.

(** The node accepts every sync request and connection; its outbox stays
    as it is. *)
#[export] Instance demo_node_sync : NodeSync demo_blockchain demo_network := {|
  head_block_id := fun db => demo_header_id (List.last (header <$> db) genesis_header);
  node_sync_from := fun id sent => Returned sent;
  node_connect_to_p2p_network := fun sent => Returned sent
|}.

(** A network that is down: every broadcast throws. *)
Definition offline_network : Network demo_blockchain := {|
  chain_client := unit;
  chain_client_broadcast_transaction := fun _ _ => Thrown (exception 4);
  chain_client_broadcast_block := fun _ _ => Thrown (exception 4);
  node := unit;
  node_broadcast := fun _ _ => Thrown (exception 4)
|}.

Definition offline_client (use_p2p : bool) : @client_impl demo_blockchain demo_wallet offline_network :=
  @Build_client_impl demo_blockchain demo_wallet offline_network
    42 0
    (if use_p2p then None else Some tt)
    (if use_p2p then Some tt else None)
    [] {[ 7005 := 5 ]} 0.

Definition peer_with_5_6 : client_impl := demo_client true [] [5; 6].
Definition server_client_due : client_impl := demo_client false [] [5; 6].

End DemoNet.

(** * Properties *)

Section Properties.

Context {B : Blockchain} {W : Wallet B} {N : Network B} {MT : MessageTypes}.

Abbreviation block := (trx_block signed_transaction).

Implicit Types (c : client_impl) (trx : signed_transaction).

(** ** Unsigned arithmetic *)

Lemma wrap32_small z : 0 <= z <= uint32_max -> wrap32 z = z.
Proof.
  intros Hz. unfold wrap32, uint32_modulus. apply Z.mod_small.
  unfold uint32_max in Hz. lia.
Qed.

Lemma wrap32_minus_one : wrap32 (-1) = uint32_max.
Proof. reflexivity. Qed.

(** Incrementing the encoding of [l] gives [l + 1], also from [-1], which is
    encoded as [UINT32_MAX]. *)
Lemma u32_incr_wrap l : -1 <= l < uint32_max -> u32_incr (wrap32 l) = l + 1.
Proof.
  intros Hl. unfold u32_incr, wrap32, uint32_modulus.
  rewrite Z.add_mod_idemp_l by lia.
  apply Z.mod_small. unfold uint32_max in Hl. lia.
Qed.

Lemma u32_sub_small a b : 0 <= b <= a -> a <= uint32_max -> u32_sub a b = a - b.
Proof. intros Hb Ha. unfold u32_sub. apply wrap32_small. lia. Qed.

(** ** The loop of [get_item_ids] *)

Lemma seqZ_succ (lo : Z) (n : nat) :
  seqZ lo (Z.of_nat (S n)) = lo :: seqZ (lo + 1) (Z.of_nat n).
Proof.
  rewrite seqZ_cons by lia. f_equal. f_equal; lia.
Qed.

Lemma collect_item_ids_run (db : chain_database) c (count : nat) :
  forall l : Z,
    -1 <= l -> l + Z.of_nat count <= uint32_max ->
    (forall n, l < n <= l + Z.of_nat count -> is_Some (fetch_block n db)) ->
    exists hashes,
      mapM (id_of db) (seqZ (l + 1) (Z.of_nat count)) = Some hashes /\
      collect_item_ids db count (wrap32 l) c = (Returned hashes, c, []).
Proof.
  induction count as [|count IH]; intros l Hlo Hhi Hblocks.
  - exists []. split; reflexivity.
  - destruct (Hblocks (l + 1)) as [hdr Hhdr]; [lia|].
    destruct (IH (l + 1)) as (rest & Hrest & Hrun); [lia | lia | |].
    { intros n Hn. apply Hblocks. lia. }
    exists (header_id hdr :: rest). split.
    + assert (Hid : id_of db (l + 1) = Some (header_id hdr)).
      { unfold id_of. rewrite Hhdr. reflexivity. }
      rewrite seqZ_succ. cbn [mapM]. rewrite Hid, Hrest. reflexivity.
    + cbn [collect_item_ids]. rewrite u32_incr_wrap by lia.
      rewrite Hhdr. rewrite wrap32_small in Hrun by lia.
      unfold bind at 1. unfold ret at 1. unfold bind at 1.
      rewrite Hrun. reflexivity.
Qed.


Lemma collect_item_ids_never_throws (db : chain_database) (count : nat) :
  forall (l : Z) c e, fst (fst (collect_item_ids db count l c)) <> Thrown e.
Proof.
  induction count as [|count IH]; intros l c e; cbn [collect_item_ids].
  - discriminate.
  - destruct (fetch_block (u32_incr l) db) as [hdr|]; [|discriminate].
    unfold bind at 1. unfold ret at 1. unfold bind at 1.
    specialize (IH (u32_incr l) c).
    destruct (collect_item_ids db count (u32_incr l) c) as [[[hs|e'|] c'] lg];
      cbn in *; [discriminate | | discriminate].
    intros Heq. apply (IH e'). reflexivity.
Qed.

Lemma contiguous_chain_fetch (db : chain_database) (H n : Z) :
  contiguous_chain db H -> 0 <= n <= H -> is_Some (fetch_block n db).
Proof.
  intros (_ & _ & Hall) Hn.
  rewrite Forall_forall in Hall. apply Hall.
  apply elem_of_seqZ. lia.
Qed.

(** [get_item_ids] once the type check has passed and the from-hash has been
    resolved to [last_seen_block_num]. *)
Lemma get_item_ids_resolved (from_id : item_id) (limit last : Z) c :
  item_type from_id = block_message_type ->
  match fetch_block_num (item_hash from_id) (_chain_db c) with
  | Some n => n = last
  | None => item_hash from_id = zero_hash /\ last = uint32_max
  end ->
  get_item_ids from_id limit c =
    bind (collect_item_ids (_chain_db c)
            (Z.to_nat (Z.min limit (u32_sub (head_block_num (_chain_db c)) last))) last)
         (fun hashes =>
            ret (hashes,
                 u32_sub (u32_sub (head_block_num (_chain_db c)) last)
                         (Z.min limit (u32_sub (head_block_num (_chain_db c)) last)))) c.
Proof.
  intros Hty Hres. unfold get_item_ids. rewrite Hty, Z.eqb_refl.
  cbn [FC_ASSERT]. unfold bind at 1. unfold ret at 1. unfold bind at 1.
  unfold gets at 1. cbn [fst snd].
  destruct (fetch_block_num (item_hash from_id) (_chain_db c)) as [n|].
  - subst n.
    destruct (bind _ _ c) as [[o c'] lg]. reflexivity.
  - destruct Hres as [Hz ->]. rewrite Hz, Z.eqb_refl.
    destruct (bind _ _ c) as [[o c'] lg]. reflexivity.
Qed.


(** ** Item server: [get_item_ids] *)

(** C1. On a contiguous chain of height [H], asked from a known hash that
    identifies block [k], [get_item_ids] returns exactly the ids of the
    blocks [k+1 … min(k+limit, H)] in ascending height order and leaves
    [max(0, H-k-limit)] in [remaining_item_count]. *)
Theorem get_item_ids_known_hash c (H k limit from_hash : Z) :
  contiguous_chain (_chain_db c) H ->
  fetch_block_num from_hash (_chain_db c) = Some k ->
  0 <= k <= H ->
  0 <= limit <= uint32_max ->
  exists hashes,
    ids_of_blocks (_chain_db c) (k + 1) (Z.min (k + limit) H) = Some hashes /\
    get_item_ids {| item_type := block_message_type; item_hash := from_hash |} limit c
    = (Returned (hashes, Z.max 0 (H - k - limit)), c, []).
Proof.
  intros Hchain Hk Hrange Hlimit.
  pose proof Hchain as (Hhead & HH & _).
  rewrite (get_item_ids_resolved _ limit k c); [| reflexivity | cbn; rewrite Hk; reflexivity].
  rewrite Hhead, (u32_sub_small H k) by lia.
  destruct (collect_item_ids_run (_chain_db c) c (Z.to_nat (Z.min limit (H - k))) k)
    as (hashes & Hids & Hrun); [lia | lia | |].
  { intros n Hn. apply (contiguous_chain_fetch _ H); [assumption | lia]. }
  exists hashes. split.
  - unfold ids_of_blocks.
    replace (Z.min (k + limit) H - (k + 1) + 1)
      with (Z.of_nat (Z.to_nat (Z.min limit (H - k)))) by lia.
    exact Hids.
  - rewrite wrap32_small in Hrun by lia.
    unfold bind. rewrite Hrun. unfold ret. cbn [app].
    rewrite u32_sub_small by lia.
    replace (H - k - Z.min limit (H - k)) with (Z.max 0 (H - k - limit)) by lia.
    reflexivity.
Qed.

(** C7. The zero hash stands for "before genesis": [last_seen_block_num]
    becomes [UINT32_MAX], the subtraction and the first increment wrap
    around, and the ids returned are those of the blocks
    [0 … min(limit-1, H)] in ascending order; on an empty chain
    ([head_block_num] is [UINT32_MAX]) nothing is returned and nothing
    remains. *)
Theorem get_item_ids_zero_hash c (limit : Z) :
  fetch_block_num zero_hash (_chain_db c) = None ->
  0 <= limit <= uint32_max ->
  (forall H,
      contiguous_chain (_chain_db c) H -> H < uint32_max ->
      exists hashes,
        ids_of_blocks (_chain_db c) 0 (Z.min (limit - 1) H) = Some hashes /\
        get_item_ids {| item_type := block_message_type; item_hash := zero_hash |} limit c
        = (Returned (hashes, Z.max 0 (H + 1 - limit)), c, [])) /\
  (head_block_num (_chain_db c) = uint32_max ->
   get_item_ids {| item_type := block_message_type; item_hash := zero_hash |} limit c
   = (Returned ([], 0), c, [])).
Proof.
  intros Hzero Hlimit.
  assert (Hres : forall l,
             get_item_ids {| item_type := block_message_type; item_hash := zero_hash |} l c = _)
    by (intros l; apply (get_item_ids_resolved _ l uint32_max c);
        [reflexivity | cbn; rewrite Hzero; split; reflexivity]).
  split.
  - intros H Hchain Hlt.
    pose proof Hchain as (Hhead & HH & _).
    rewrite Hres, Hhead.
    assert (Hrem : u32_sub H uint32_max = H + 1).
    { unfold u32_sub, wrap32, uint32_modulus, uint32_max in *.
      replace (H - 4294967295) with (H + 1 + (-1) * 2 ^ 32) by lia.
      rewrite Z.mod_add by lia. apply Z.mod_small. lia. }
    rewrite Hrem.
    destruct (collect_item_ids_run (_chain_db c) c (Z.to_nat (Z.min limit (H + 1))) (-1))
      as (hashes & Hids & Hrun); [lia | lia | |].
    { intros n Hn. apply (contiguous_chain_fetch _ H); [assumption | lia]. }
    exists hashes. split.
    + unfold ids_of_blocks.
      replace (Z.min (limit - 1) H - 0 + 1)
        with (Z.of_nat (Z.to_nat (Z.min limit (H + 1)))) by lia.
      exact Hids.
    + rewrite wrap32_minus_one in Hrun.
      unfold bind. rewrite Hrun. unfold ret. cbn [app].
      rewrite u32_sub_small by lia.
      replace (H + 1 - Z.min limit (H + 1)) with (Z.max 0 (H + 1 - limit)) by lia.
      reflexivity.
  - intros Hempty. rewrite Hres, Hempty.
    replace (u32_sub uint32_max uint32_max) with 0 by reflexivity.
    replace (Z.min limit 0) with 0 by lia.
    reflexivity.
Qed.

(** C8. A non-zero from-hash that the chain does not know is answered with
    the empty list and zero remaining items; nothing is raised. *)
Theorem get_item_ids_unknown_hash c (limit from_hash : Z) :
  from_hash <> zero_hash ->
  fetch_block_num from_hash (_chain_db c) = None ->
  get_item_ids {| item_type := block_message_type; item_hash := from_hash |} limit c
  = (Returned ([], 0), c, []).
Proof.
  intros Hnz Hunknown. unfold get_item_ids. cbn [item_type item_hash].
  rewrite Z.eqb_refl. cbn [FC_ASSERT].
  unfold bind, ret, gets. cbn [fst snd].
  rewrite Hunknown.
  destruct (from_hash =? zero_hash) eqn:Heq; [apply Z.eqb_eq in Heq; contradiction|].
  reflexivity.
Qed.

(** C9. [get_item_ids] on an item that is not a block fails its
    [FC_ASSERT] whatever the chain holds, with the object untouched; and the
    assertion is the outcome exactly when the item is not a block. *)
Theorem get_item_ids_requires_block_type (from_id : item_id) (limit : Z) c :
  (item_type from_id <> block_message_type ->
   get_item_ids from_id limit c = (Thrown assert_exception, c, [])) /\
  (fst (fst (get_item_ids from_id limit c)) = Thrown assert_exception <->
   item_type from_id <> block_message_type).
Proof.
  assert (Hfail : item_type from_id <> block_message_type ->
                  get_item_ids from_id limit c = (Thrown assert_exception, c, [])).
  { intros Hne. unfold get_item_ids.
    destruct (item_type from_id =? block_message_type) eqn:Heq;
      [apply Z.eqb_eq in Heq; contradiction|].
    reflexivity. }
  split; [exact Hfail|]. split.
  - intros Hthrown Hty. revert Hthrown.
    unfold get_item_ids. rewrite Hty, Z.eqb_refl. cbn [FC_ASSERT].
    unfold bind at 1. unfold ret at 1. unfold bind at 1. unfold gets at 1.
    cbn [fst snd].
    destruct (fetch_block_num (item_hash from_id) (_chain_db c)) as [n|].
    + unfold bind, ret.
      pose proof (collect_item_ids_never_throws (_chain_db c)
        (Z.to_nat (Z.min limit (u32_sub (head_block_num (_chain_db c)) n))) n c) as Hnt.
      destruct (collect_item_ids _ _ n c) as [[[hs|e'|] c'] lg]; cbn in *;
        [discriminate | | discriminate].
      intros _. apply (Hnt e'). reflexivity.
    + destruct (item_hash from_id =? zero_hash); [|discriminate].
      unfold bind, ret.
      pose proof (collect_item_ids_never_throws (_chain_db c)
        (Z.to_nat (Z.min limit (u32_sub (head_block_num (_chain_db c)) uint32_max)))
        uint32_max c) as Hnt.
      destruct (collect_item_ids _ _ uint32_max c) as [[[hs|e'|] c'] lg]; cbn in *;
        [discriminate | | discriminate].
      intros _. apply (Hnt e'). reflexivity.
  - intros Hne. rewrite (Hfail Hne). reflexivity.
Qed.


(** ** Inbound handler *)

Lemma erase_trxs_cons trx (ts : list signed_transaction) (m : gmap Z signed_transaction) :
  erase_trxs (trx :: ts) m = erase_trxs ts (delete (transaction_id trx) m).
Proof. reflexivity. Qed.

Lemma erase_trxs_lookup_None (ts : list signed_transaction) :
  forall (m : gmap Z signed_transaction) (i : Z),
    m !! i = None -> erase_trxs ts m !! i = None.
Proof.
  induction ts as [|t ts IH]; intros m i Hm; [exact Hm|].
  rewrite erase_trxs_cons. apply IH.
  apply lookup_delete_None. right. exact Hm.
Qed.

Lemma erase_trxs_erased (ts : list signed_transaction) :
  forall (m : gmap Z signed_transaction) trx,
    trx ∈ ts -> erase_trxs ts m !! transaction_id trx = None.
Proof.
  induction ts as [|t ts IH]; intros m trx Hin.
  - inversion Hin.
  - rewrite erase_trxs_cons. apply elem_of_cons in Hin as [-> | Hin].
    + apply erase_trxs_lookup_None, lookup_delete_eq.
    + apply IH, Hin.
Qed.

Lemma erase_trxs_other (ts : list signed_transaction) :
  forall (m : gmap Z signed_transaction) (i : Z),
    (forall trx, trx ∈ ts -> transaction_id trx <> i) ->
    erase_trxs ts m !! i = m !! i.
Proof.
  induction ts as [|t ts IH]; intros m i Hne; [reflexivity|].
  rewrite erase_trxs_cons, IH.
  - apply lookup_delete_ne, Hne, elem_of_cons. left. reflexivity.
  - intros trx Hin. apply Hne, elem_of_cons. right. exact Hin.
Qed.

Lemma on_new_block_run (blk : block) c :
  on_new_block blk c =
  match push_block blk (_chain_db c) with
  | Returned db' =>
      (Returned tt,
       set_wallet (scan_chain db' (block_num (header blk)) (_wallet c))
         (set_pending_trxs (erase_trxs (trxs blk) (_pending_trxs c))
            (set_chain_db db' c)),
       [(info, "")])
  | Thrown e => (Thrown e, c, [(warn, "Error pushing block ${block}: ${error}")])
  | Aborted => (Aborted, c, [])
  end.
Proof.
  unfold on_new_block, try_catch, bind, gets, lift, modify, log, throw.
  destruct (push_block blk (_chain_db c)); reflexivity.
Qed.

(** C2. [on_new_block] completes or leaves the object untouched.  When
    [push_block] throws, the exception is re-raised (after a warning) and
    nothing has changed, the mempool included.  When it succeeds the call
    returns, every transaction of the block has been erased from the mempool
    (whether it was pending or not), so the mempool and the block's
    transactions are disjoint, and no other pending transaction is lost. *)
Theorem on_new_block_all_or_nothing (blk : block) c :
  (forall e,
      push_block blk (_chain_db c) = Thrown e ->
      on_new_block blk c
      = (Thrown e, c, [(warn, "Error pushing block ${block}: ${error}")])) /\
  (forall db',
      push_block blk (_chain_db c) = Returned db' ->
      exists c',
        on_new_block blk c = (Returned tt, c', [(info, "")]) /\
        _chain_db c' = db' /\
        _pending_trxs c' = erase_trxs (trxs blk) (_pending_trxs c) /\
        (forall trx, trx ∈ trxs blk -> _pending_trxs c' !! transaction_id trx = None) /\
        (forall i, (forall trx, trx ∈ trxs blk -> transaction_id trx <> i) ->
                   _pending_trxs c' !! i = _pending_trxs c !! i)) /\
  (forall o c' lg,
      on_new_block blk c = (o, c', lg) -> o = Returned tt \/ c' = c).
Proof.
  rewrite on_new_block_run. split; [|split].
  - intros e ->. reflexivity.
  - intros db' ->. eexists. split; [reflexivity|]. cbn.
    split; [reflexivity|]. split; [reflexivity|]. split.
    + intros trx Hin. apply erase_trxs_erased, Hin.
    + intros i Hne. apply erase_trxs_other, Hne.
  - intros o c' lg. destruct (push_block blk (_chain_db c)); intros [= <- <- <-].
    + left. reflexivity.
    + right. reflexivity.
    + right. reflexivity.
Qed.

Lemma set_pending_trxs_same c : set_pending_trxs (_pending_trxs c) c = c.
Proof. destruct c. reflexivity. Qed.

Lemma on_new_transaction_run trx c :
  on_new_transaction trx c =
  match evaluate_transaction trx (_chain_db c) with
  | Returned _ =>
      match _pending_trxs c !! transaction_id trx with
      | Some _ => (Returned tt, c, [(warn, "duplicate transaction, ignoring")])
      | None =>
          (Returned tt,
           set_pending_trxs (<[transaction_id trx := trx]> (_pending_trxs c)) c,
           [(info, "new transaction")])
      end
  | Thrown e => (Thrown e, c, [])
  | Aborted => (Aborted, c, [])
  end.
Proof.
  unfold on_new_transaction, pending_insert, bind, gets, lift, modify, log.
  destruct (evaluate_transaction trx (_chain_db c)); try reflexivity.
  cbn. destruct (_pending_trxs c !! transaction_id trx); cbn.
  - rewrite set_pending_trxs_same. reflexivity.
  - reflexivity.
Qed.

Lemma on_new_transaction_valid trx c :
  evaluate_transaction trx (_chain_db c) = Returned tt ->
  exists c' lg,
    on_new_transaction trx c = (Returned tt, c', lg) /\
    is_Some (_pending_trxs c' !! transaction_id trx) /\
    (_pending_trxs c !! transaction_id trx = None ->
     _pending_trxs c' !! transaction_id trx = Some trx).
Proof.
  intros Hvalid. rewrite on_new_transaction_run, Hvalid.
  destruct (_pending_trxs c !! transaction_id trx) as [old|] eqn:Hold.
  - exists c, [(warn, "duplicate transaction, ignoring")].
    split; [reflexivity|]. split; [rewrite Hold; eauto | intros [=]].
  - exists (set_pending_trxs (<[transaction_id trx := trx]> (_pending_trxs c)) c),
      [(info, "new transaction")].
    split; [reflexivity|]. cbn [set_pending_trxs _pending_trxs].
    rewrite lookup_insert_eq. split; [eauto | reflexivity].
Qed.

(** C3. [on_new_transaction] evaluates first.  A failed evaluation
    propagates and leaves the object, the mempool included, as it was.  A
    valid transaction is pending afterwards and the chain is the one before:
    a new id is inserted (one more entry), an id already present is reported
    as a duplicate and nothing changes; in particular a second receipt of the
    same transaction is a duplicate and keeps the mempool size. *)
Theorem on_new_transaction_evaluates_first trx c :
  (forall e,
      evaluate_transaction trx (_chain_db c) = Thrown e ->
      on_new_transaction trx c = (Thrown e, c, [])) /\
  (evaluate_transaction trx (_chain_db c) = Returned tt ->
   exists c' lg,
     on_new_transaction trx c = (Returned tt, c', lg) /\
     _chain_db c' = _chain_db c /\
     is_Some (_pending_trxs c' !! transaction_id trx) /\
     (_pending_trxs c !! transaction_id trx = None ->
      _pending_trxs c' !! transaction_id trx = Some trx /\
      _pending_trxs c' = <[transaction_id trx := trx]> (_pending_trxs c) /\
      size (_pending_trxs c') = S (size (_pending_trxs c)) /\
      lg = [(info, "new transaction")]) /\
     (is_Some (_pending_trxs c !! transaction_id trx) ->
      c' = c /\ lg = [(warn, "duplicate transaction, ignoring")]) /\
     on_new_transaction trx c'
     = (Returned tt, c', [(warn, "duplicate transaction, ignoring")])).
Proof.
  split.
  - intros e He. rewrite on_new_transaction_run, He. reflexivity.
  - intros Hvalid. rewrite on_new_transaction_run, Hvalid.
    destruct (_pending_trxs c !! transaction_id trx) as [old|] eqn:Hold.
    + exists c, [(warn, "duplicate transaction, ignoring")].
      split; [reflexivity|]. split; [reflexivity|].
      split; [rewrite Hold; eauto|].
      split; [intros [=]|]. split; [intros _; split; reflexivity|].
      rewrite on_new_transaction_run, Hvalid, Hold. reflexivity.
    + exists (set_pending_trxs (<[transaction_id trx := trx]> (_pending_trxs c)) c),
        [(info, "new transaction")].
      split; [reflexivity|]. cbn [set_pending_trxs _pending_trxs _chain_db].
      split; [reflexivity|].
      split; [rewrite lookup_insert_eq; eauto|].
      split.
      { intros _. split; [apply lookup_insert_eq|]. split; [reflexivity|].
        split; [apply map_size_insert_None, Hold | reflexivity]. }
      split; [intros [? [=]]|].
      rewrite on_new_transaction_run.
      cbn [set_pending_trxs _pending_trxs _chain_db].
      rewrite Hvalid, lookup_insert_eq. reflexivity.
Qed.


(** ** Item server: [get_item] *)

(** Whatever is not a block ends at the closing [FC_THROW_EXCEPTION]: the
    transaction branch has no [return]. *)
Lemma get_item_not_a_block (id : item_id) c :
  item_type id <> block_message_type ->
  get_item id c = (Thrown key_not_found_exception, c, []).
Proof.
  intros Hne. unfold get_item.
  unfold bind at 1. unfold gets at 1.
  destruct (item_type id =? block_message_type) eqn:Heq;
    [apply Z.eqb_eq in Heq; contradiction|].
  destruct (item_type id =? trx_message_type); reflexivity.
Qed.

(** In particular a transaction item is never served, pending or not. *)
Lemma get_item_trx_not_found (id : item_id) c :
  item_type id = trx_message_type ->
  get_item id c = (Thrown key_not_found_exception, c, []).
Proof.
  intros Hty. apply get_item_not_a_block. rewrite Hty.
  apply message_types_distinct.
Qed.

Lemma get_item_unknown_block (id : item_id) c :
  item_type id = block_message_type ->
  fetch_block_num (item_hash id) (_chain_db c) = None ->
  get_item id c = (Thrown key_not_found_exception, c, []).
Proof.
  intros Hty Hunknown. unfold get_item.
  unfold bind at 1. unfold gets at 1.
  rewrite Hty, Z.eqb_refl. unfold bind at 1. rewrite Hunknown. reflexivity.
Qed.

(** ** Transport seam *)

Lemma broadcast_transaction_run trx c :
  broadcast_transaction trx c =
  match _chain_client c with
  | Some cc =>
      match chain_client_broadcast_transaction trx cc with
      | Returned cc' => (Returned tt, set_chain_client (Some cc') c, [])
      | Thrown e => (Thrown e, c, [])
      | Aborted => (Aborted, c, [])
      end
  | None =>
      match _p2p_node c with
      | Some n =>
          match node_broadcast (trx_message trx) n with
          | Returned n' => on_new_transaction trx (set_p2p_node (Some n') c)
          | Thrown e => (Thrown e, c, [])
          | Aborted => (Aborted, c, [])
          end
      | None => (Aborted, c, [])
      end
  end.
Proof.
  unfold broadcast_transaction.
  unfold bind at 1. unfold gets at 1.
  destruct (_chain_client c) as [cc|].
  - unfold bind, lift, modify.
    destruct (chain_client_broadcast_transaction trx cc); reflexivity.
  - unfold bind at 1. unfold gets at 1.
    destruct (_p2p_node c) as [n|]; [|reflexivity].
    unfold bind at 1. unfold lift at 1.
    destruct (node_broadcast (trx_message trx) n) as [n'| |]; try reflexivity.
    unfold bind at 1. unfold modify at 1.
    destruct (on_new_transaction trx (set_p2p_node (Some n') c)) as [[[[]|e|] c'] lg];
      reflexivity.
Qed.

(** C4. The echo asymmetry of [broadcast_transaction], for a transaction
    that evaluates.  With the p2p node the single call already leaves the
    transaction pending: the coordinator applies it itself.  With the chain
    client the call leaves the mempool as it was, so a transaction that was
    not pending is still not pending, and it becomes pending when the echo
    is delivered through [on_new_transaction]. *)
Theorem broadcast_transaction_echo_asymmetry trx c :
  evaluate_transaction trx (_chain_db c) = Returned tt ->
  (forall n n',
      _chain_client c = None -> _p2p_node c = Some n ->
      node_broadcast (trx_message trx) n = Returned n' ->
      exists c' lg,
        broadcast_transaction trx c = (Returned tt, c', lg) /\
        is_Some (_pending_trxs c' !! transaction_id trx) /\
        (_pending_trxs c !! transaction_id trx = None ->
         _pending_trxs c' !! transaction_id trx = Some trx)) /\
  (forall cc cc',
      _chain_client c = Some cc ->
      chain_client_broadcast_transaction trx cc = Returned cc' ->
      exists c',
        broadcast_transaction trx c = (Returned tt, c', []) /\
        _pending_trxs c' = _pending_trxs c /\
        (_pending_trxs c !! transaction_id trx = None ->
         _pending_trxs c' !! transaction_id trx = None) /\
        exists c'' lg,
          on_new_transaction trx c' = (Returned tt, c'', lg) /\
          is_Some (_pending_trxs c'' !! transaction_id trx)).
Proof.
  intros Hvalid. split.
  - intros n n' Hcc Hnode Hsent.
    rewrite broadcast_transaction_run, Hcc, Hnode, Hsent.
    destruct (on_new_transaction_valid trx (set_p2p_node (Some n') c) Hvalid)
      as (c' & lg & Hrun & Hin & Hnew).
    exists c', lg. split; [exact Hrun|]. split; [exact Hin|].
    intros Hfresh. apply Hnew, Hfresh.
  - intros cc cc' Hcc Hsent.
    rewrite broadcast_transaction_run, Hcc, Hsent.
    exists (set_chain_client (Some cc') c).
    split; [reflexivity|]. split; [reflexivity|]. split; [intros Hfresh; exact Hfresh|].
    destruct (on_new_transaction_valid trx (set_chain_client (Some cc') c) Hvalid)
      as (c'' & lg & Hrun & Hin & _).
    exists c'', lg. split; assumption.
Qed.

(** C10. With the p2p node [broadcast_transaction] gossips first and
    validates afterwards: for a transaction whose evaluation throws, the
    exception reaches the caller and the mempool is as before, but the node
    is in the state after the broadcast of the transaction. *)
Theorem broadcast_transaction_gossips_before_validating trx c n n' e :
  _chain_client c = None ->
  _p2p_node c = Some n ->
  node_broadcast (trx_message trx) n = Returned n' ->
  evaluate_transaction trx (_chain_db c) = Thrown e ->
  exists c',
    broadcast_transaction trx c = (Thrown e, c', []) /\
    _pending_trxs c' = _pending_trxs c /\
    _chain_db c' = _chain_db c /\
    _p2p_node c' = Some n'.
Proof.
  intros Hcc Hnode Hsent Hinvalid.
  rewrite broadcast_transaction_run, Hcc, Hnode, Hsent.
  exists (set_p2p_node (Some n') c).
  rewrite on_new_transaction_run. cbn [set_p2p_node _chain_db].
  rewrite Hinvalid. repeat split; reflexivity.
Qed.


(** ** Trustee loop *)

Lemma produce_block_run (pending_trxs : list signed_transaction) (now : Z) c :
  produce_block pending_trxs now c =
  match generate_next_block (_chain_db c) pending_trxs (_wallet c) with
  | Returned blk0 =>
      match sign_header (_trustee_key c) (header blk0) with
      | Returned sig =>
          match _chain_client c with
          | Some cc =>
              match chain_client_broadcast_block (with_signature sig blk0) cc with
              | Returned cc' =>
                  (Returned tt, set_last_block now (set_chain_client (Some cc') c), [])
              | Thrown e => (Thrown e, c, [])
              | Aborted => (Aborted, c, [])
              end
          | None =>
              match _p2p_node c with
              | Some n =>
                  match node_broadcast
                          (block_message (header_id (header (with_signature sig blk0)))
                                         (with_signature sig blk0) sig) n with
                  | Returned n' =>
                      match on_new_block (with_signature sig blk0)
                                         (set_p2p_node (Some n') c) with
                      | (Returned _, c1, l1) => (Returned tt, set_last_block now c1, l1)
                      | r => r
                      end
                  | Thrown e => (Thrown e, c, [])
                  | Aborted => (Aborted, c, [])
                  end
              | None => (Aborted, c, [])
              end
          end
      | Thrown e => (Thrown e, c, [])
      | Aborted => (Aborted, c, [])
      end
  | Thrown e => (Thrown e, c, [])
  | Aborted => (Aborted, c, [])
  end.
Proof.
  unfold produce_block.
  unfold bind at 1. unfold gets at 1. unfold bind at 1. unfold gets at 1.
  unfold bind at 1. unfold lift at 1.
  destruct (generate_next_block (_chain_db c) pending_trxs (_wallet c)) as [blk0| |];
    try reflexivity.
  unfold bind at 1. unfold gets at 1. unfold bind at 1. unfold sign at 1.
  unfold bind at 1. unfold lift at 1.
  destruct (sign_header (_trustee_key c) (header blk0)) as [sig| |]; try reflexivity.
  unfold ret at 1. unfold bind at 1. unfold bind at 1. unfold gets at 1.
  destruct (_chain_client c) as [cc|].
  - unfold bind at 1. unfold lift at 1.
    destruct (chain_client_broadcast_block (with_signature sig blk0) cc); reflexivity.
  - unfold bind at 1. unfold gets at 1.
    destruct (_p2p_node c) as [n|]; [|reflexivity].
    unfold bind at 1. unfold lift at 1. cbn [with_signature header trustee_signature].
    destruct (node_broadcast _ n) as [n'| |]; try reflexivity.
    unfold bind at 1. unfold modify at 1.
    destruct (on_new_block _ (set_p2p_node (Some n') c)) as [[[[]|e|] c1] l1];
      try reflexivity.
    unfold modify. cbn. rewrite app_nil_r. reflexivity.
Qed.

Lemma trustee_iteration_run (t : tick) c :
  trustee_iteration t c =
  if production_due (mempool_snapshot c) (now_at_check t) (_last_block c) then
    match produce_block (mempool_snapshot c) (now_after_publish t) c with
    | (Thrown e, c1, l1) =>
        (Returned tt, c1, l1 ++ [(error, "error producing block?: ${e}")])
    | r => r
    end
  else (Returned tt, c, []).
Proof.
  unfold trustee_iteration, get_pending_transactions.
  unfold bind at 1. unfold gets at 1. unfold bind at 1. unfold gets at 1.
  fold (mempool_snapshot c).
  destruct (production_due (mempool_snapshot c) (now_at_check t) (_last_block c));
    [|reflexivity].
  unfold try_catch, log.
  destruct (produce_block (mempool_snapshot c) (now_after_publish t) c)
    as [[[[]|e|] c1] l1]; reflexivity.
Qed.

(** How [produce_block] ends decides [_last_block]: it is the new reading
    when the block went out, and the old value otherwise. *)
Lemma produce_block_last_block (now : Z) c o c1 l1 :
  produce_block (mempool_snapshot c) now c = (o, c1, l1) ->
  (o = Returned tt /\ _last_block c1 = now /\ publication_succeeds c) \/
  (o <> Returned tt /\ _last_block c1 = _last_block c).
Proof.
  rewrite produce_block_run.
  destruct (generate_next_block (_chain_db c) (mempool_snapshot c) (_wallet c))
    as [blk0|e|] eqn:Hgen;
    [| intros [= <- <- <-]; right; split; [discriminate | reflexivity] ..].
  destruct (sign_header (_trustee_key c) (header blk0)) as [sig|e|] eqn:Hsign;
    [| intros [= <- <- <-]; right; split; [discriminate | reflexivity] ..].
  destruct (_chain_client c) as [cc|] eqn:Hcc.
  - destruct (chain_client_broadcast_block (with_signature sig blk0) cc) as [cc'|e|] eqn:Hsent;
      intros [= <- <- <-]; [| right; split; [discriminate | reflexivity] ..].
    left. split; [reflexivity|]. split; [reflexivity|].
    exists blk0, sig. split; [exact Hgen|]. split; [exact Hsign|].
    rewrite Hcc. eauto.
  - destruct (_p2p_node c) as [n|] eqn:Hnode;
      [| intros [= <- <- <-]; right; split; [discriminate | reflexivity]].
    destruct (node_broadcast _ n) as [n'|e|] eqn:Hsent;
      [| intros [= <- <- <-]; right; split; [discriminate | reflexivity] ..].
    rewrite on_new_block_run. cbn [set_p2p_node _chain_db].
    destruct (push_block (with_signature sig blk0) (_chain_db c)) as [db'|e|] eqn:Hpush;
      intros [= <- <- <-]; [| right; split; [discriminate | reflexivity] ..].
    left. split; [reflexivity|]. split; [reflexivity|].
    exists blk0, sig. split; [exact Hgen|]. split; [exact Hsign|].
    rewrite Hcc. exists n, n', db'. split; [exact Hnode|]. split; [exact Hsent | exact Hpush].
Qed.


Lemma production_due_spec (pending_trxs : list signed_transaction) (now last_block : Z) :
  production_due pending_trxs now last_block = true <->
  pending_trxs <> [] /\ fc_seconds 30 < now - last_block.
Proof.
  unfold production_due. rewrite andb_true_iff, negb_true_iff, Z.ltb_lt.
  destruct pending_trxs; cbn; split; intros [H1 H2]; split;
    solve [assumption | discriminate | reflexivity | congruence].
Qed.

Lemma trustee_iteration_last_block (t : tick) c o c' lg :
  trustee_iteration t c = (o, c', lg) ->
  _last_block c' = _last_block c \/
  (production_due (mempool_snapshot c) (now_at_check t) (_last_block c) = true /\
   publication_succeeds c /\
   _last_block c' = now_after_publish t).
Proof.
  rewrite trustee_iteration_run.
  destruct (production_due _ _ _) eqn:Hdue; [| intros [= <- <- <-]; left; reflexivity].
  destruct (produce_block (mempool_snapshot c) (now_after_publish t) c)
    as [[o1 c1] l1] eqn:Hrun.
  destruct (produce_block_last_block _ _ _ _ _ Hrun) as [(-> & Hnew & Hpub) | (_ & Hold)].
  - intros [= <- <- <-]. right. repeat split; assumption.
  - destruct o1; intros [= <- <- <-]; left; exact Hold.
Qed.

Lemma trustee_iteration_monotone (t : tick) c o c' lg :
  clock_consistent t ->
  trustee_iteration t c = (o, c', lg) ->
  _last_block c <= _last_block c'.
Proof.
  intros Hclock Hrun.
  destruct (trustee_iteration_last_block _ _ _ _ _ Hrun) as [-> | (Hdue & _ & ->)]; [lia|].
  apply production_due_spec in Hdue as [_ Hlate].
  unfold clock_consistent, fc_seconds in *. lia.
Qed.

Lemma trustee_iterations_monotone (ts : list tick) :
  forall c o c' lg,
    Forall clock_consistent ts ->
    trustee_iterations ts c = (o, c', lg) ->
    _last_block c <= _last_block c'.
Proof.
  induction ts as [|t ts IH]; intros c o c' lg Hclock; cbn [trustee_iterations].
  - intros [= <- <- <-]. lia.
  - apply Forall_cons in Hclock as [Ht Hts].
    destruct (canceled t); [intros [= <- <- <-]; lia|].
    unfold bind.
    destruct (trustee_iteration t c) as [[o1 c1] l1] eqn:Hstep.
    pose proof (trustee_iteration_monotone _ _ _ _ _ Ht Hstep) as Hle1.
    destruct o1 as [[]|e|]; [| intros [= <- <- <-]; exact Hle1 ..].
    destruct (trustee_iterations ts c1) as [[o2 c2] l2] eqn:Hrest.
    intros [= <- <- <-].
    pose proof (IH _ _ _ _ Hts Hrest). lia.
Qed.

(** C5. In a pass of the trustee loop nothing is assembled, signed or
    broadcast unless the mempool snapshot is non-empty and more than thirty
    seconds have passed since [_last_block]: otherwise the pass leaves the
    object as it is.  When production throws, the pass logs the error,
    returns normally and [_last_block] keeps its value; [_last_block] moves
    only when assembly, signing and publication all went through, and then
    to the clock reading taken afterwards.  With a clock that does not run
    backwards within a pass, [_last_block] never decreases over any number
    of passes, nor over the whole loop when its initial value is not after
    the head block's timestamp. *)
Theorem trustee_loop_gate_and_clock :
  (forall (t : tick) c,
      (~ (mempool_snapshot c <> [] /\
          fc_seconds 30 < now_at_check t - _last_block c) ->
       trustee_iteration t c = (Returned tt, c, [])) /\
      (forall e c1 l1,
          mempool_snapshot c <> [] ->
          fc_seconds 30 < now_at_check t - _last_block c ->
          produce_block (mempool_snapshot c) (now_after_publish t) c = (Thrown e, c1, l1) ->
          trustee_iteration t c
          = (Returned tt, c1, l1 ++ [(error, "error producing block?: ${e}")]) /\
          _last_block c1 = _last_block c) /\
      (forall o c' lg,
          trustee_iteration t c = (o, c', lg) ->
          _last_block c' <> _last_block c ->
          (mempool_snapshot c <> [] /\
           fc_seconds 30 < now_at_check t - _last_block c) /\
          publication_succeeds c /\
          _last_block c' = now_after_publish t)) /\
  (forall (ts : list tick) c o c' lg,
      Forall clock_consistent ts ->
      trustee_iterations ts c = (o, c', lg) ->
      _last_block c <= _last_block c') /\
  (forall (ts : list tick) c o c' lg,
      _last_block c <= timestamp (get_head_block (_chain_db c)) ->
      Forall clock_consistent ts ->
      trustee_loop ts c = (o, c', lg) ->
      _last_block c <= _last_block c').
Proof.
  split; [|split].
  - intros t c. split; [|split].
    + intros Hclosed. rewrite trustee_iteration_run.
      destruct (production_due _ _ _) eqn:Hdue; [|reflexivity].
      apply production_due_spec in Hdue. contradiction.
    + intros e c1 l1 Hpending Hlate Hrun.
      rewrite trustee_iteration_run.
      rewrite (proj2 (production_due_spec _ _ _) (conj Hpending Hlate)), Hrun.
      split; [reflexivity|].
      destruct (produce_block_last_block _ _ _ _ _ Hrun) as [([=] & _) | (_ & Hold)].
      exact Hold.
    + intros o c' lg Hrun Hmoved.
      destruct (trustee_iteration_last_block _ _ _ _ _ Hrun)
        as [Hsame | (Hdue & Hpub & Hnew)]; [contradiction|].
      apply production_due_spec in Hdue. repeat split; tauto.
  - intros ts c o c' lg. apply trustee_iterations_monotone.
  - intros ts c o c' lg Hinit Hclock. unfold trustee_loop, bind, modify.
    destruct (trustee_iterations ts _) as [[o2 c2] l2] eqn:Hrest.
    intros [= <- <- <-].
    apply (trustee_iterations_monotone _ _ _ _ _ Hclock) in Hrest.
    cbn [set_last_block _last_block] in Hrest. lia.
Qed.

End Properties.

(** * The properties on the small node *)

Import Demo.

Lemma demo_chain_contiguous : contiguous_chain (demo_chain 10) 10.
Proof.
  split; [reflexivity|]. split; [unfold uint32_max; lia|].
  vm_compute. repeat constructor; eauto.
Defined.

(** C6. A pending transaction is not served: with transaction 5 (id 7005)
    in the mempool, [get_item] on the transaction item 7005 ends in
    [key_not_found_exception] instead of returning the message that holds
    the transaction. *)
Theorem get_item_pending_transaction_not_found :
  _pending_trxs peer_with_5 !! demo_transaction_id 5 = Some 5 /\
  get_item {| item_type := trx_message_type; item_hash := demo_transaction_id 5 |}
           peer_with_5
  = (Thrown key_not_found_exception, peer_with_5, []).
Proof.
  split; [vm_compute; reflexivity|].
  apply get_item_trx_not_found. reflexivity.
Qed.

(** Sync range: head 10, from block 3, limit 4. *)
Lemma get_item_ids_known_hash_example :
  get_item_ids {| item_type := block_message_type; item_hash := 503 |} 4 synced_peer
  = (Returned ([504; 505; 506; 507], 3), synced_peer, []).
Proof.
  destruct (get_item_ids_known_hash synced_peer 10 3 4 503) as (hashes & Hids & Hrun).
  - exact demo_chain_contiguous.
  - reflexivity.
  - lia.
  - unfold uint32_max. lia.
  - vm_compute in Hids. injection Hids as <-. exact Hrun.
Defined.

Lemma get_item_ids_zero_hash_example :
  get_item_ids {| item_type := block_message_type; item_hash := zero_hash |} 4 synced_peer
  = (Returned ([500; 501; 502; 503], 7), synced_peer, []) /\
  get_item_ids {| item_type := block_message_type; item_hash := zero_hash |} 4 fresh_peer
  = (Returned ([], 0), fresh_peer, []).
Proof.
  split.
  - destruct (get_item_ids_zero_hash synced_peer 4) as [Hchain _];
      [reflexivity | unfold uint32_max; lia |].
    destruct (Hchain 10) as (hashes & Hids & Hrun);
      [exact demo_chain_contiguous | unfold uint32_max; lia |].
    vm_compute in Hids. injection Hids as <-. exact Hrun.
  - apply (get_item_ids_zero_hash fresh_peer 4);
      [reflexivity | unfold uint32_max; lia | reflexivity].
Defined.

(** Fork-unknown: a fabricated non-zero hash, limit 100. *)
Lemma get_item_ids_unknown_hash_example :
  get_item_ids {| item_type := block_message_type; item_hash := 77 |} 100 synced_peer
  = (Returned ([], 0), synced_peer, []).
Proof.
  apply get_item_ids_unknown_hash; [unfold zero_hash; lia | reflexivity].
Defined.

Lemma get_item_ids_requires_block_type_example :
  get_item_ids {| item_type := trx_message_type; item_hash := 503 |} 4 synced_peer
  = (Thrown assert_exception, synced_peer, []).
Proof.
  apply (get_item_ids_requires_block_type
           {| item_type := trx_message_type; item_hash := 503 |} 4 synced_peer).
  vm_compute. discriminate.
Defined.

(** A block at the wrong height is refused and nothing changes; the genesis
    block with transactions 5 and 8 is applied and 5 leaves the mempool. *)
Lemma on_new_block_example :
  on_new_block (block_of 7 [5]) peer_with_5
  = (Thrown (exception 1), peer_with_5,
     [(warn, "Error pushing block ${block}: ${error}")]) /\
  exists c',
    on_new_block (block_of 0 [5; 8]) peer_with_5 = (Returned tt, c', [(info, "")]) /\
    _chain_db c' = [block_of 0 [5; 8]] /\
    _pending_trxs c' !! demo_transaction_id 5 = None /\
    _pending_trxs c' !! demo_transaction_id 8 = None.
Proof.
  split.
  - apply (on_new_block_all_or_nothing (block_of 7 [5]) peer_with_5). reflexivity.
  - destruct (on_new_block_all_or_nothing (block_of 0 [5; 8]) peer_with_5)
      as (_ & Hok & _).
    destruct (Hok [block_of 0 [5; 8]] eq_refl) as (c' & Hrun & Hdb & _ & Hgone & _).
    exists c'. split; [exact Hrun|]. split; [exact Hdb|]. split.
    + apply (Hgone 5). apply list_elem_of_here.
    + apply (Hgone 8). apply list_elem_of_further, list_elem_of_here.
Defined.

(** Transaction -5 does not evaluate; transaction 6 is new, then a
    duplicate. *)
Lemma on_new_transaction_example :
  on_new_transaction (-5) peer_with_5 = (Thrown (exception 2), peer_with_5, []) /\
  exists c',
    on_new_transaction 6 peer_with_5 = (Returned tt, c', [(info, "new transaction")]) /\
    _chain_db c' = _chain_db peer_with_5 /\
    _pending_trxs c' !! demo_transaction_id 6 = Some 6 /\
    size (_pending_trxs c') = 2%nat /\
    on_new_transaction 6 c' = (Returned tt, c', [(warn, "duplicate transaction, ignoring")]).
Proof.
  split.
  - apply (on_new_transaction_evaluates_first (B:=demo_blockchain) (-5) peer_with_5). reflexivity.
  - destruct (on_new_transaction_evaluates_first (B:=demo_blockchain) 6 peer_with_5) as (_ & Hok).
    destruct (Hok eq_refl) as (c' & lg & Hrun & Hdb & _ & Hnew & _ & Hagain).
    destruct Hnew as (Hin & _ & Hsize & ->); [vm_compute; reflexivity|].
    exists c'. split; [exact Hrun|]. split; [exact Hdb|]. split; [exact Hin|].
    split; [rewrite Hsize; vm_compute; reflexivity | exact Hagain].
Defined.

(** Transaction 6: pending right after the call on the peer; not pending
    after the call on the client of a server, pending once echoed. *)
Lemma broadcast_transaction_echo_asymmetry_example :
  (exists c' lg,
      broadcast_transaction 6 peer_with_5 = (Returned tt, c', lg) /\
      _pending_trxs c' !! demo_transaction_id 6 = Some 6) /\
  (exists c',
      broadcast_transaction 6 server_client_with_5 = (Returned tt, c', []) /\
      _pending_trxs c' !! demo_transaction_id 6 = None /\
      exists c'' lg,
        on_new_transaction 6 c' = (Returned tt, c'', lg) /\
        is_Some (_pending_trxs c'' !! demo_transaction_id 6)).
Proof.
  split.
  - destruct (broadcast_transaction_echo_asymmetry (B:=demo_blockchain) 6 peer_with_5 eq_refl) as (Hpeer & _).
    destruct (Hpeer [] [trx_message 6] eq_refl eq_refl eq_refl)
      as (c' & lg & Hrun & _ & Hnew).
    exists c', lg. split; [exact Hrun|]. apply Hnew. vm_compute. reflexivity.
  - destruct (broadcast_transaction_echo_asymmetry (B:=demo_blockchain) 6 server_client_with_5 eq_refl)
      as (_ & Hserver).
    destruct (Hserver [] [trx_message 6] eq_refl eq_refl)
      as (c' & Hrun & _ & Hstill & Hecho).
    exists c'. split; [exact Hrun|]. split; [|exact Hecho].
    apply Hstill. vm_compute. reflexivity.
Defined.

(** The invalid transaction -5 has been handed to the node although it is
    rejected. *)
Lemma broadcast_transaction_gossips_before_validating_example :
  exists c',
    broadcast_transaction (-5) fresh_peer = (Thrown (exception 2), c', []) /\
    _pending_trxs c' = _pending_trxs fresh_peer /\
    _chain_db c' = _chain_db fresh_peer /\
    _p2p_node c' = Some [trx_message (-5)].
Proof.
  apply (broadcast_transaction_gossips_before_validating (B:=demo_blockchain) (-5) fresh_peer []);
    reflexivity.
Defined.

(** Passes of the trustee loop: too early (20 s), nothing pending (after
    5 min), a key that cannot sign, a block going out at 31 s, and a run of
    three passes. *)
Lemma trustee_loop_example :
  trustee_iteration (tick_at 20 21) peer_with_5 = (Returned tt, peer_with_5, []) /\
  trustee_iteration (tick_at 300 301) fresh_peer = (Returned tt, fresh_peer, []) /\
  trustee_iteration (tick_at 31 32) keyless_peer
  = (Returned tt, keyless_peer, [(error, "error producing block?: ${e}")]) /\
  publication_succeeds peer_with_5 /\
  _last_block peer_with_5
  <= _last_block
       (snd (fst (trustee_iterations [tick_at 20 21; tick_at 31 32; tick_at 40 41]
                                     peer_with_5))).
Proof.
  destruct (trustee_loop_gate_and_clock (B:=demo_blockchain) (W:=demo_wallet)
              (N:=demo_network)) as (Hpass & Hmono & _).
  split; [|split; [|split; [|split]]].
  - apply (Hpass (tick_at 20 21) peer_with_5).
    intros [_ Hlate]. vm_compute in Hlate. discriminate.
  - apply (Hpass (tick_at 300 301) fresh_peer).
    intros [Hpending _]. apply Hpending. vm_compute. reflexivity.
  - destruct (Hpass (tick_at 31 32) keyless_peer) as (_ & Hfail & _).
    apply (Hfail (exception 3) keyless_peer []).
    + vm_compute. discriminate.
    + vm_compute. reflexivity.
    + vm_compute. reflexivity.
  - destruct (Hpass (tick_at 31 32) peer_with_5) as (_ & _ & Hmoved).
    assert (Hnew : _last_block (snd (fst (trustee_iteration (tick_at 31 32) peer_with_5)))
                   = 32000000) by (vm_compute; reflexivity).
    destruct (trustee_iteration (tick_at 31 32) peer_with_5) as [[o c'] lg] eqn:Hrun.
    cbn [fst snd] in Hnew.
    apply (Hmoved o c' lg eq_refl). rewrite Hnew. vm_compute. discriminate.
  - destruct (trustee_iterations [tick_at 20 21; tick_at 31 32; tick_at 40 41] peer_with_5)
      as [[o c'] lg] eqn:Hrun.
    cbn [fst snd].
    apply (Hmono [tick_at 20 21; tick_at 31 32; tick_at 40 41] peer_with_5 o c' lg);
      [|exact Hrun].
    repeat apply Forall_cons_2; try apply Forall_nil_2;
      unfold clock_consistent, tick_at, fc_seconds; cbn; lia.
Defined.

(** * Further properties *)

Section MoreProperties.

Context {B : Blockchain} {W : Wallet B} {N : Network B} {MT : MessageTypes}.
Context {MC : MessageCodec B} {NS : NodeSync B N}.

Abbreviation block := (trx_block signed_transaction).

Implicit Types (c : client_impl) (trx : signed_transaction).

(** ** The mempool is keyed by transaction id *)

Lemma erase_trxs_lookup_Some (ts : list signed_transaction) :
  forall (m : gmap Z signed_transaction) (i : Z) trx,
    erase_trxs ts m !! i = Some trx -> m !! i = Some trx.
Proof.
  induction ts as [|t ts IH]; intros m i trx Hlook; [exact Hlook|].
  rewrite erase_trxs_cons in Hlook. apply IH in Hlook.
  apply lookup_delete_Some in Hlook as [_ Hlook]. exact Hlook.
Qed.

Lemma erase_trxs_subseteq (ts : list signed_transaction) (m : gmap Z signed_transaction) :
  erase_trxs ts m ⊆ m.
Proof.
  apply map_subseteq_spec. intros i trx. apply erase_trxs_lookup_Some.
Qed.

Lemma keyed_erase (ts : list signed_transaction) (m : gmap Z signed_transaction) :
  map_Forall (fun k trx => transaction_id trx = k) m ->
  map_Forall (fun k trx => transaction_id trx = k) (erase_trxs ts m).
Proof.
  intros Hm i trx Hlook. apply (Hm i trx), (erase_trxs_lookup_Some ts), Hlook.
Qed.

Lemma on_new_transaction_keeps_keys trx c o c' lg :
  pending_keyed_by_id c ->
  on_new_transaction trx c = (o, c', lg) ->
  pending_keyed_by_id c'.
Proof.
  intros Hkeyed. rewrite on_new_transaction_run.
  destruct (evaluate_transaction trx (_chain_db c));
    [| intros [= <- <- <-]; exact Hkeyed ..].
  destruct (_pending_trxs c !! transaction_id trx);
    intros [= <- <- <-]; [exact Hkeyed|].
  unfold pending_keyed_by_id. cbn [set_pending_trxs _pending_trxs].
  apply map_Forall_insert_2; [reflexivity | exact Hkeyed].
Qed.

Lemma on_new_block_keeps_keys (blk : block) c o c' lg :
  pending_keyed_by_id c ->
  on_new_block blk c = (o, c', lg) ->
  pending_keyed_by_id c'.
Proof.
  intros Hkeyed. rewrite on_new_block_run.
  destruct (push_block blk (_chain_db c)); intros [= <- <- <-]; [|exact Hkeyed ..].
  unfold pending_keyed_by_id. cbn [set_wallet set_pending_trxs set_chain_db _pending_trxs].
  apply keyed_erase, Hkeyed.
Qed.

Lemma broadcast_transaction_keeps_keys trx c o c' lg :
  pending_keyed_by_id c ->
  broadcast_transaction trx c = (o, c', lg) ->
  pending_keyed_by_id c'.
Proof.
  intros Hkeyed. rewrite broadcast_transaction_run.
  destruct (_chain_client c) as [cc|].
  - destruct (chain_client_broadcast_transaction trx cc);
      intros [= <- <- <-]; exact Hkeyed.
  - destruct (_p2p_node c) as [n|]; [|intros [= <- <- <-]; exact Hkeyed].
    destruct (node_broadcast (trx_message trx) n) as [n'| |];
      [| intros [= <- <- <-]; exact Hkeyed ..].
    apply (on_new_transaction_keeps_keys trx (set_p2p_node (Some n') c)). exact Hkeyed.
Qed.

Lemma produce_block_keeps_keys (pending_trxs : list signed_transaction) (now : Z) c o c' lg :
  pending_keyed_by_id c ->
  produce_block pending_trxs now c = (o, c', lg) ->
  pending_keyed_by_id c'.
Proof.
  intros Hkeyed. rewrite produce_block_run.
  destruct (generate_next_block _ _ _) as [blk0| |];
    [| intros [= <- <- <-]; exact Hkeyed ..].
  destruct (sign_header _ _) as [sig| |]; [| intros [= <- <- <-]; exact Hkeyed ..].
  destruct (_chain_client c) as [cc|].
  - destruct (chain_client_broadcast_block _ cc); intros [= <- <- <-]; exact Hkeyed.
  - destruct (_p2p_node c) as [n|]; [|intros [= <- <- <-]; exact Hkeyed].
    destruct (node_broadcast _ n) as [n'| |]; [| intros [= <- <- <-]; exact Hkeyed ..].
    destruct (on_new_block _ _) as [[o1 c1] l1] eqn:Hblock.
    apply (on_new_block_keeps_keys _ (set_p2p_node (Some n') c)) in Hblock;
      [|exact Hkeyed].
    destruct o1 as [[]| |]; intros [= <- <- <-]; exact Hblock.
Qed.

Lemma trustee_iteration_keeps_keys (t : tick) c o c' lg :
  pending_keyed_by_id c ->
  trustee_iteration t c = (o, c', lg) ->
  pending_keyed_by_id c'.
Proof.
  intros Hkeyed. rewrite trustee_iteration_run.
  destruct (production_due _ _ _); [|intros [= <- <- <-]; exact Hkeyed].
  destruct (produce_block _ _ c) as [[o1 c1] l1] eqn:Hrun.
  apply (produce_block_keeps_keys _ _ _ _ _ _ Hkeyed) in Hrun.
  destruct o1 as [[]| |]; intros [= <- <- <-]; exact Hrun.
Qed.

Lemma trustee_iterations_keeps_keys (ts : list tick) :
  forall c o c' lg,
    pending_keyed_by_id c ->
    trustee_iterations ts c = (o, c', lg) ->
    pending_keyed_by_id c'.
Proof.
  induction ts as [|t ts IH]; intros c o c' lg Hkeyed; cbn [trustee_iterations].
  - intros [= <- <- <-]. exact Hkeyed.
  - destruct (canceled t); [intros [= <- <- <-]; exact Hkeyed|].
    unfold bind.
    destruct (trustee_iteration t c) as [[o1 c1] l1] eqn:Hstep.
    apply (trustee_iteration_keeps_keys _ _ _ _ _ Hkeyed) in Hstep.
    destruct o1 as [[]| |]; [| intros [= <- <- <-]; exact Hstep ..].
    destruct (trustee_iterations ts c1) as [[o2 c2] l2] eqn:Hrest.
    intros [= <- <- <-]. exact (IH _ _ _ _ Hstep Hrest).
Qed.

Lemma handle_message_run (m : wire_message) c :
  handle_message m c =
  if msg_type m =? block_message_type then
    match as_block_message m with
    | Returned bm =>
        match on_new_block (bm_block bm) c with
        | (o, c', lg) => (o, c', (info, "CLIENT: just received block ${id}") :: lg)
        end
    | Thrown e => (Thrown e, c, [])
    | Aborted => (Aborted, c, [])
    end
  else if msg_type m =? trx_message_type then
    match as_trx_message m with
    | Returned trx => on_new_transaction trx c
    | Thrown e => (Thrown e, c, [])
    | Aborted => (Aborted, c, [])
    end
  else (Returned tt, c, []).
Proof.
  unfold handle_message.
  destruct (msg_type m =? block_message_type).
  - unfold bind at 1. unfold lift at 1.
    destruct (as_block_message m) as [bm| |]; try reflexivity.
    unfold bind, log.
    destruct (on_new_block (bm_block bm) c) as [[o c'] lg]. reflexivity.
  - destruct (msg_type m =? trx_message_type); [|reflexivity].
    unfold bind, lift.
    destruct (as_trx_message m) as [trx| |]; try reflexivity.
    destruct (on_new_transaction trx c) as [[o c'] lg]. reflexivity.
Qed.

Lemma handle_message_keeps_keys (m : wire_message) c o c' lg :
  pending_keyed_by_id c ->
  handle_message m c = (o, c', lg) ->
  pending_keyed_by_id c'.
Proof.
  intros Hkeyed. rewrite handle_message_run.
  destruct (msg_type m =? block_message_type).
  - destruct (as_block_message m) as [bm| |]; [| intros [= <- <- <-]; exact Hkeyed ..].
    destruct (on_new_block (bm_block bm) c) as [[o1 c1] l1] eqn:Hblock.
    intros [= <- <- <-]. exact (on_new_block_keeps_keys _ _ _ _ _ Hkeyed Hblock).
  - destruct (msg_type m =? trx_message_type); [|intros [= <- <- <-]; exact Hkeyed].
    destruct (as_trx_message m) as [trx| |]; [| intros [= <- <- <-]; exact Hkeyed ..].
    apply on_new_transaction_keeps_keys, Hkeyed.
Qed.

(** X1. Every pending transaction is stored under its own id, and every
    operation that writes the mempool keeps it so: [on_new_transaction],
    [on_new_block], [handle_message], [broadcast_transaction] and any run of
    the trustee loop, however they end. *)
Theorem pending_keyed_by_id_invariant c :
  pending_keyed_by_id c ->
  (forall trx o c' lg, on_new_transaction trx c = (o, c', lg) -> pending_keyed_by_id c') /\
  (forall (blk : block) o c' lg, on_new_block blk c = (o, c', lg) -> pending_keyed_by_id c') /\
  (forall (m : wire_message) o c' lg, handle_message m c = (o, c', lg) -> pending_keyed_by_id c') /\
  (forall trx o c' lg, broadcast_transaction trx c = (o, c', lg) -> pending_keyed_by_id c') /\
  (forall (ts : list tick) o c' lg, trustee_loop ts c = (o, c', lg) -> pending_keyed_by_id c').
Proof.
  intros Hkeyed. repeat split.
  - intros trx o c' lg. apply on_new_transaction_keeps_keys, Hkeyed.
  - intros blk o c' lg. apply on_new_block_keeps_keys, Hkeyed.
  - intros m o c' lg. apply handle_message_keeps_keys, Hkeyed.
  - intros trx o c' lg. apply broadcast_transaction_keeps_keys, Hkeyed.
  - intros ts o c' lg. unfold trustee_loop, bind, modify.
    destruct (trustee_iterations ts _) as [[o2 c2] l2] eqn:Hrest.
    intros [= <- <- <-].
    apply (trustee_iterations_keeps_keys ts
             (set_last_block (timestamp (get_head_block (_chain_db c))) c) o2 c2 l2);
      [exact Hkeyed | exact Hrest].
Qed.

(** ** The snapshot handed to block assembly *)

Lemma snapshot_ids c :
  pending_keyed_by_id c ->
  transaction_id <$> mempool_snapshot c = (map_to_list (_pending_trxs c)).*1.
Proof.
  intros Hkeyed. unfold mempool_snapshot. rewrite <- list_fmap_compose.
  apply list_fmap_ext. intros i [k trx] Hlook. cbn.
  apply (Hkeyed k trx). apply elem_of_map_to_list.
  apply list_elem_of_lookup. eauto.
Qed.

Lemma snapshot_elem_of trx c :
  pending_keyed_by_id c ->
  trx ∈ mempool_snapshot c <-> _pending_trxs c !! transaction_id trx = Some trx.
Proof.
  intros Hkeyed. unfold mempool_snapshot. rewrite list_elem_of_fmap. split.
  - intros ([k t] & -> & Hin). cbn. apply elem_of_map_to_list in Hin.
    rewrite (Hkeyed k t Hin). exact Hin.
  - intros Hlook. exists (transaction_id trx, trx). split; [reflexivity|].
    apply elem_of_map_to_list, Hlook.
Qed.

(** X2. [get_pending_transactions] reads without writing and returns the
    mempool's values: as many as the mempool has entries, with pairwise
    distinct ids, and a transaction is in the list exactly when it is
    pending under its id. *)
Theorem get_pending_transactions_snapshot c :
  pending_keyed_by_id c ->
  exists l,
    get_pending_transactions c = (Returned l, c, []) /\
    length l = size (_pending_trxs c) /\
    NoDup (transaction_id <$> l) /\
    forall trx, trx ∈ l <-> _pending_trxs c !! transaction_id trx = Some trx.
Proof.
  intros Hkeyed. exists (mempool_snapshot c). split; [reflexivity|]. split; [|split].
  - unfold mempool_snapshot. rewrite length_fmap. apply length_map_to_list.
  - rewrite snapshot_ids by exact Hkeyed. apply NoDup_fst_map_to_list.
  - intros trx. apply snapshot_elem_of, Hkeyed.
Qed.

(** ** Serving items *)

Lemma get_item_run (id : item_id) c :
  get_item id c =
  if item_type id =? block_message_type then
    match fetch_block_num (item_hash id) (_chain_db c) with
    | Some n =>
        match fetch_trx_block n (_chain_db c) with
        | Some blk =>
            if item_hash id =? header_id (header blk) then
              (Returned (block_message (header_id (header blk)) blk
                                       (trustee_signature (header blk))), c, [])
            else (Thrown assert_exception, c, [])
        | None => (Thrown key_not_found_exception, c, [])
        end
    | None => (Thrown key_not_found_exception, c, [])
    end
  else (Thrown key_not_found_exception, c, []).
Proof.
  destruct (item_type id =? block_message_type) eqn:Hty.
  - unfold get_item. unfold bind at 1. unfold gets at 1. rewrite Hty.
    unfold bind at 1.
    destruct (fetch_block_num (item_hash id) (_chain_db c)) as [n|]; [|reflexivity].
    unfold ret at 1. unfold bind at 1.
    destruct (fetch_trx_block n (_chain_db c)) as [blk|]; [|reflexivity].
    unfold ret at 1. unfold bind, FC_ASSERT.
    destruct (item_hash id =? header_id (header blk)); reflexivity.
  - apply get_item_not_a_block. intros Heq. rewrite Heq, Z.eqb_refl in Hty. discriminate.
Qed.

(** X3. [get_item] only reads, and what it returns is always a block
    message: it returns exactly when the item is a block whose hash resolves
    to a height, the block at that height is there and its id is the hash
    asked for; the message then carries that hash, that block and the
    block's trustee signature.  A block found under a hash that is not its
    id is refused with the assertion instead of being served. *)
Theorem get_item_serves_blocks_only (id : item_id) c :
  (forall o c' lg, get_item id c = (o, c', lg) -> c' = c /\ lg = []) /\
  (forall m,
      fst (fst (get_item id c)) = Returned m <->
      item_type id = block_message_type /\
      exists n blk,
        fetch_block_num (item_hash id) (_chain_db c) = Some n /\
        fetch_trx_block n (_chain_db c) = Some blk /\
        header_id (header blk) = item_hash id /\
        m = block_message (item_hash id) blk (trustee_signature (header blk))) /\
  (forall n blk,
      item_type id = block_message_type ->
      fetch_block_num (item_hash id) (_chain_db c) = Some n ->
      fetch_trx_block n (_chain_db c) = Some blk ->
      header_id (header blk) <> item_hash id ->
      get_item id c = (Thrown assert_exception, c, [])).
Proof.
  rewrite get_item_run. split; [|split].
  - intros o c' lg.
    destruct (item_type id =? block_message_type); [|intros [= <- <- <-]; split; reflexivity].
    destruct (fetch_block_num _ _) as [n|]; [|intros [= <- <- <-]; split; reflexivity].
    destruct (fetch_trx_block n _) as [blk|]; [|intros [= <- <- <-]; split; reflexivity].
    destruct (item_hash id =? header_id (header blk));
      intros [= <- <- <-]; split; reflexivity.
  - intros m. split.
    + intros Hret.
      destruct (item_type id =? block_message_type) eqn:Hty; [|discriminate].
      apply Z.eqb_eq in Hty. split; [exact Hty|].
      destruct (fetch_block_num _ _) as [n|] eqn:Hn; [|discriminate].
      destruct (fetch_trx_block n _) as [blk|] eqn:Hblk; [|discriminate].
      destruct (item_hash id =? header_id (header blk)) eqn:Hid; [|discriminate].
      apply Z.eqb_eq in Hid. cbn in Hret. injection Hret as <-.
      exists n, blk. split; [first [reflexivity | exact Hn]|].
      split; [exact Hblk|]. split; [symmetry; exact Hid|].
      rewrite Hid. reflexivity.
    + intros (Hty & n & blk & Hn & Hblk & Hid & ->).
      rewrite Hty, Z.eqb_refl, Hn, Hblk, <- Hid, Z.eqb_refl. reflexivity.
  - intros n blk Hty Hn Hblk Hne.
    rewrite Hty, Z.eqb_refl, Hn, Hblk.
    destruct (item_hash id =? header_id (header blk)) eqn:Hid; [|reflexivity].
    apply Z.eqb_eq in Hid. congruence.
Qed.

(** ** Pages of item ids *)

Lemma collect_item_ids_shape (db : chain_database) (count : nat) :
  forall (l : Z) c o c' lg,
    collect_item_ids db count l c = (o, c', lg) ->
    c' = c /\ lg = [] /\
    forall hs, o = Returned hs ->
               length hs = count /\
               Forall (fun h => exists n, id_of db n = Some h) hs.
Proof.
  induction count as [|count IH]; intros l c o c' lg; cbn [collect_item_ids].
  - intros [= <- <- <-]. split; [reflexivity|]. split; [reflexivity|].
    intros hs [= <-]. split; [reflexivity | constructor].
  - destruct (fetch_block (u32_incr l) db) as [hdr|] eqn:Hhdr.
    + unfold bind at 1. unfold ret at 1. unfold bind at 1.
      destruct (collect_item_ids db count (u32_incr l) c) as [[o1 c1] l1] eqn:Hrest.
      destruct (IH _ _ _ _ _ Hrest) as (-> & -> & Hhs).
      destruct o1 as [rest| |]; intros [= <- <- <-];
        (split; [reflexivity|]); (split; [reflexivity|]); intros hs [= <-].
      destruct (Hhs rest eq_refl) as [Hlen Hall]. split; [cbn; rewrite Hlen; reflexivity|].
      constructor; [|exact Hall].
      exists (u32_incr l). unfold id_of. rewrite Hhdr. reflexivity.
    + unfold bind, abort. intros [= <- <- <-].
      split; [reflexivity|]. split; [reflexivity|]. intros hs [=].
Qed.

Lemma wrap32_range z : 0 <= wrap32 z <= uint32_max.
Proof.
  unfold wrap32, uint32_modulus, uint32_max.
  pose proof (Z.mod_pos_bound z (2 ^ 32)). lia.
Qed.

Lemma get_item_ids_shape (from_id : item_id) (limit : Z) c hashes remaining c' lg :
  0 <= limit ->
  get_item_ids from_id limit c = (Returned (hashes, remaining), c', lg) ->
  c' = c /\ lg = [] /\
  Z.of_nat (length hashes) <= limit /\
  0 <= remaining <= uint32_max /\
  (remaining <> 0 -> Z.of_nat (length hashes) = limit) /\
  Forall (fun h => exists n, id_of (_chain_db c) n = Some h) hashes.
Proof.
  intros Hlimit.
  assert (Hpage : forall last,
    bind (collect_item_ids (_chain_db c)
            (Z.to_nat (Z.min limit (u32_sub (head_block_num (_chain_db c)) last))) last)
         (fun hs =>
            ret (hs,
                 u32_sub (u32_sub (head_block_num (_chain_db c)) last)
                         (Z.min limit (u32_sub (head_block_num (_chain_db c)) last)))) c
    = (Returned (hashes, remaining), c', lg) ->
    c' = c /\ lg = [] /\
    Z.of_nat (length hashes) <= limit /\
    0 <= remaining <= uint32_max /\
    (remaining <> 0 -> Z.of_nat (length hashes) = limit) /\
    Forall (fun h => exists n, id_of (_chain_db c) n = Some h) hashes).
  { intros last. unfold bind, ret.
    pose proof (wrap32_range (head_block_num (_chain_db c) - last)) as Htotal.
    fold (u32_sub (head_block_num (_chain_db c)) last) in Htotal.
    set (total := u32_sub (head_block_num (_chain_db c)) last) in *.
    destruct (collect_item_ids _ _ last c) as [[o1 c1] l1] eqn:Hrun.
    destruct (collect_item_ids_shape _ _ _ _ _ _ _ Hrun) as (-> & -> & Hhs).
    destruct o1 as [hs| |]; intros [= <- <- <- <-].
    destruct (Hhs hs eq_refl) as [Hlen Hall].
    rewrite u32_sub_small by lia.
    rewrite Hlen, Z2Nat.id by lia.
    split; [reflexivity|]. split; [reflexivity|]. split; [lia|]. split; [lia|].
    split; [lia | exact Hall]. }
  unfold get_item_ids.
  destruct (item_type from_id =? block_message_type); [|discriminate].
  cbn [FC_ASSERT]. unfold bind at 1. unfold ret at 1. unfold bind at 1.
  unfold gets at 1. cbn [fst snd].
  destruct (fetch_block_num (item_hash from_id) (_chain_db c)) as [n|].
  - intros Hrun. apply (Hpage n).
    destruct (bind _ _ c) as [[o1 c1] l1]. exact Hrun.
  - destruct (item_hash from_id =? zero_hash).
    + intros Hrun. apply (Hpage uint32_max).
      destruct (bind _ _ c) as [[o1 c1] l1]. exact Hrun.
    + unfold ret. intros [= <- <- <- <-].
      split; [reflexivity|]. split; [reflexivity|]. split; [cbn; lia|].
      split; [unfold uint32_max; lia|].
      split; [intros Hne; contradiction Hne; reflexivity | constructor].
Qed.

(** X4. Whatever the chain holds, a page returned by [get_item_ids] is
    within bounds: the call only reads, it returns at most [limit] hashes,
    the remaining count is a 32-bit value, a non-zero remaining count comes
    only with a full page, and every hash returned is the id of a block the
    chain has. *)
Theorem get_item_ids_page_bounds (from_id : item_id) (limit : Z) c hashes remaining c' lg :
  0 <= limit ->
  get_item_ids from_id limit c = (Returned (hashes, remaining), c', lg) ->
  c' = c /\ lg = [] /\
  Z.of_nat (length hashes) <= limit /\
  0 <= remaining <= uint32_max /\
  (remaining <> 0 -> Z.of_nat (length hashes) = limit) /\
  Forall (fun h => exists n, id_of (_chain_db c) n = Some h) hashes.
Proof. apply get_item_ids_shape. Qed.

(** X5. With consistent indexes every hash that [get_item_ids] returns can
    be fetched: [get_item] on it returns the block message of a block with
    that id. *)
Theorem get_item_ids_results_are_served
    (from_id : item_id) (limit : Z) c hashes remaining c' lg (h : Z) :
  chain_indexed (_chain_db c) ->
  0 <= limit ->
  get_item_ids from_id limit c = (Returned (hashes, remaining), c', lg) ->
  h ∈ hashes ->
  exists blk,
    header_id (header blk) = h /\
    get_item {| item_type := block_message_type; item_hash := h |} c
    = (Returned (block_message h blk (trustee_signature (header blk))), c, []).
Proof.
  intros Hindexed Hlimit Hrun Hin.
  destruct (get_item_ids_shape _ _ _ _ _ _ _ Hlimit Hrun) as (_ & _ & _ & _ & _ & Hall).
  rewrite Forall_forall in Hall. destruct (Hall h Hin) as [n Hid].
  unfold id_of in Hid.
  destruct (fetch_block n (_chain_db c)) as [hdr|] eqn:Hhdr; [|discriminate].
  injection Hid as <-.
  destruct (Hindexed n hdr Hhdr) as (Hnum & blk & Hblk & <-).
  exists blk. split; [reflexivity|].
  rewrite get_item_run. cbn [item_type item_hash].
  rewrite Z.eqb_refl, Hnum, Hblk, Z.eqb_refl. reflexivity.
Qed.

(** ** Follow-up queries *)

(** The page served from a known height, in the form the follow-up
    properties use. *)
Lemma get_item_ids_from_height c (H k limit from_hash : Z) :
  contiguous_chain (_chain_db c) H ->
  fetch_block_num from_hash (_chain_db c) = Some k ->
  0 <= k <= H ->
  0 <= limit <= uint32_max ->
  exists hashes,
    Forall2 (fun n h => id_of (_chain_db c) n = Some h)
            (seqZ (k + 1) (Z.min limit (H - k))) hashes /\
    get_item_ids {| item_type := block_message_type; item_hash := from_hash |} limit c
    = (Returned (hashes, Z.max 0 (H - k - limit)), c, []).
Proof.
  intros Hchain Hk Hrange Hlimit.
  pose proof Hchain as (Hhead & HH & _).
  rewrite (get_item_ids_resolved _ limit k c); [| reflexivity | cbn; rewrite Hk; reflexivity].
  rewrite Hhead, (u32_sub_small H k) by lia.
  destruct (collect_item_ids_run (_chain_db c) c (Z.to_nat (Z.min limit (H - k))) k)
    as (hashes & Hids & Hrun); [lia | lia | |].
  { intros n Hn. apply (contiguous_chain_fetch _ H); [assumption | lia]. }
  exists hashes. split.
  - apply mapM_Some in Hids. rewrite Z2Nat.id in Hids by lia. exact Hids.
  - rewrite wrap32_small in Hrun by lia.
    unfold bind. rewrite Hrun. unfold ret. cbn [app].
    rewrite u32_sub_small by lia.
    replace (H - k - Z.min limit (H - k)) with (Z.max 0 (H - k - limit)) by lia.
    reflexivity.
Qed.

(** X6. Pages chain up.  On a contiguous chain with consistent indexes, a
    first page asked from block [k] below the head is not empty, and asking
    again from its last hash continues where it stopped: the two pages
    together are the ids of the blocks [k+1 … min(k+limit1+limit2, H)], and
    the second remaining count is what a single query with both limits would
    leave. *)
Theorem get_item_ids_follow_up c (H k limit1 limit2 from_hash : Z) :
  contiguous_chain (_chain_db c) H ->
  chain_indexed (_chain_db c) ->
  fetch_block_num from_hash (_chain_db c) = Some k ->
  0 <= k < H ->
  0 < limit1 <= uint32_max ->
  0 <= limit2 <= uint32_max ->
  exists hs1 r1 last_hash hs2,
    get_item_ids {| item_type := block_message_type; item_hash := from_hash |} limit1 c
    = (Returned (hs1, r1), c, []) /\
    last hs1 = Some last_hash /\
    get_item_ids {| item_type := block_message_type; item_hash := last_hash |} limit2 c
    = (Returned (hs2, Z.max 0 (H - k - limit1 - limit2)), c, []) /\
    ids_of_blocks (_chain_db c) (k + 1) (Z.min (k + limit1 + limit2) H) = Some (hs1 ++ hs2).
Proof.
  intros Hchain Hindexed Hk Hrange Hl1 Hl2.
  destruct (get_item_ids_from_height c H k limit1 from_hash Hchain Hk)
    as (hs1 & Hids1 & Hrun1); [lia | lia |].
  set (k1 := Z.min (k + limit1) H).
  assert (Hk1 : k + 1 <= k1 <= H) by (unfold k1; lia).
  replace (Z.min limit1 (H - k)) with ((k1 - k - 1) + 1) in Hids1 by (unfold k1; lia).
  rewrite seqZ_app in Hids1 by lia.
  apply Forall2_app_inv_l in Hids1 as (hs0 & tl & Hids0 & Htl & ->).
  replace (k + 1 + (k1 - k - 1)) with k1 in Htl by lia.
  change (seqZ k1 1) with [k1] in Htl.
  apply Forall2_cons_inv_l in Htl as (last_hash & tl' & Hlast & Hnil & ->).
  apply Forall2_nil_inv_l in Hnil as ->.
  unfold id_of in Hlast.
  destruct (fetch_block k1 (_chain_db c)) as [hdr|] eqn:Hhdr; [|discriminate].
  injection Hlast as <-.
  destruct (Hindexed k1 hdr Hhdr) as (Hnum & _).
  destruct (get_item_ids_from_height c H k1 limit2 (header_id hdr) Hchain Hnum)
    as (hs2 & Hids2 & Hrun2); [lia | lia |].
  exists (hs0 ++ [header_id hdr]), (Z.max 0 (H - k - limit1)), (header_id hdr), hs2.
  split; [exact Hrun1|]. split; [apply last_snoc|]. split.
  - rewrite Hrun2. replace (H - k1 - limit2) with
      (if decide (k + limit1 <= H) then H - k - limit1 - limit2 else - limit2)
      by (unfold k1; case_decide; lia).
    case_decide; [reflexivity|].
    replace (Z.max 0 (- limit2)) with 0 by lia.
    replace (Z.max 0 (H - k - limit1 - limit2)) with 0 by lia. reflexivity.
  - unfold ids_of_blocks. apply mapM_Some.
    replace (Z.min (k + limit1 + limit2) H - (k + 1) + 1)
      with ((k1 - k - 1) + 1 + Z.min limit2 (H - k1)) by (unfold k1; lia).
    rewrite !seqZ_app by lia.
    apply Forall2_app; [apply Forall2_app|].
    + exact Hids0.
    + replace (k + 1 + (k1 - k - 1)) with k1 by lia.
      change (seqZ k1 1) with [k1]. constructor; [|constructor].
      unfold id_of. rewrite Hhdr. reflexivity.
    + replace (k + 1 + (k1 - k - 1 + 1)) with (k1 + 1) by lia. exact Hids2.
Qed.

(** ** Entering the p2p network *)

Lemma connect_to_p2p_network_run c :
  connect_to_p2p_network c =
  match _p2p_node c with
  | None => (Returned tt, c, [])
  | Some n =>
      match node_sync_from (head_item_id (_chain_db c)) n with
      | Returned n1 =>
          match node_connect_to_p2p_network n1 with
          | Returned n2 => (Returned tt, set_p2p_node (Some n2) c, [])
          | Thrown e => (Thrown e, set_p2p_node (Some n1) c, [])
          | Aborted => (Aborted, set_p2p_node (Some n1) c, [])
          end
      | Thrown e => (Thrown e, c, [])
      | Aborted => (Aborted, c, [])
      end
  end.
Proof.
  unfold connect_to_p2p_network. unfold bind at 1. unfold gets at 1.
  destruct (_p2p_node c) as [n|]; [|reflexivity].
  unfold bind at 1. unfold gets at 1. unfold bind at 1. unfold lift at 1.
  destruct (node_sync_from _ n) as [n1| |]; try reflexivity.
  unfold bind, modify, lift.
  destruct (node_connect_to_p2p_network n1); reflexivity.
Qed.

(** X7. [connect_to_p2p_network] asks for a sync from [head_item_id] and
    touches nothing but the node; without a node it does nothing.  The
    item it names is one that [get_item_ids] accepts and, on a chain equal
    to the own one, answers with nothing to fetch: on an empty chain through
    the zero hash, on a contiguous chain whose head id resolves to the head
    height through the head block. *)
Theorem connect_to_p2p_network_sync_point c :
  (_p2p_node c = None -> connect_to_p2p_network c = (Returned tt, c, [])) /\
  (forall n n1 n2,
      _p2p_node c = Some n ->
      node_sync_from (head_item_id (_chain_db c)) n = Returned n1 ->
      node_connect_to_p2p_network n1 = Returned n2 ->
      connect_to_p2p_network c = (Returned tt, set_p2p_node (Some n2) c, [])) /\
  (forall limit,
      0 <= limit <= uint32_max ->
      head_block_num (_chain_db c) = uint32_max ->
      fetch_block_num zero_hash (_chain_db c) = None ->
      get_item_ids (head_item_id (_chain_db c)) limit c = (Returned ([], 0), c, [])) /\
  (forall limit H,
      0 <= limit <= uint32_max ->
      contiguous_chain (_chain_db c) H ->
      H < uint32_max ->
      fetch_block_num (head_block_id (_chain_db c)) (_chain_db c) = Some H ->
      get_item_ids (head_item_id (_chain_db c)) limit c = (Returned ([], 0), c, [])).
Proof.
  split; [|split; [|split]].
  - intros Hnone. rewrite connect_to_p2p_network_run, Hnone. reflexivity.
  - intros n n1 n2 Hnode Hsync Hconnect.
    rewrite connect_to_p2p_network_run, Hnode, Hsync, Hconnect. reflexivity.
  - intros limit Hlimit Hempty Hzero.
    unfold head_item_id. rewrite Hempty, Z.eqb_refl.
    rewrite (get_item_ids_resolved _ limit uint32_max c);
      [| reflexivity | cbn; rewrite Hzero; split; reflexivity].
    rewrite Hempty.
    replace (u32_sub uint32_max uint32_max) with 0 by reflexivity.
    replace (Z.min limit 0) with 0 by lia. reflexivity.
  - intros limit H Hlimit Hchain Hlt Hhead.
    pose proof Hchain as (Hnum & HH & _).
    unfold head_item_id.
    destruct (head_block_num (_chain_db c) =? uint32_max) eqn:Hmax;
      [apply Z.eqb_eq in Hmax; lia|].
    destruct (get_item_ids_from_height c H H limit (head_block_id (_chain_db c)) Hchain Hhead)
      as (hashes & Hids & Hrun); [lia | lia |].
    replace (Z.min limit (H - H)) with 0 in Hids by lia.
    change (seqZ (H + 1) 0) with (@nil Z) in Hids.
    apply Forall2_nil_inv_l in Hids as ->.
    rewrite Hrun. replace (Z.max 0 (H - H - limit)) with 0 by lia. reflexivity.
Qed.

(** ** More on the trustee loop *)




(** What a pass does to the object, by transport. *)
Lemma trustee_iteration_effect (t : tick) c o c' lg :
  trustee_iteration t c = (o, c', lg) ->
  _trustee_key c' = _trustee_key c /\
  (is_Some (_chain_client c) ->
   _chain_db c' = _chain_db c /\ _pending_trxs c' = _pending_trxs c /\
   _wallet c' = _wallet c /\ _p2p_node c' = _p2p_node c) /\
  (_chain_client c = None ->
   _chain_client c' = None /\
   (_last_block c' <> _last_block c ->
    exists blk0 sig,
      generate_next_block (_chain_db c) (mempool_snapshot c) (_wallet c) = Returned blk0 /\
      sign_header (_trustee_key c) (header blk0) = Returned sig /\
      push_block (with_signature sig blk0) (_chain_db c) = Returned (_chain_db c') /\
      _pending_trxs c' = erase_trxs (trxs blk0) (_pending_trxs c))).
Proof.
  rewrite trustee_iteration_run.
  destruct (production_due _ _ _);
    [| intros [= <- <- <-]; split; [reflexivity|]; split;
       [intros _; repeat split; reflexivity
       | intros Hcc; split; [exact Hcc | intros Hne; contradiction Hne; reflexivity]]].
  rewrite produce_block_run.
  destruct (generate_next_block _ _ _) as [blk0|e|] eqn:Hgen.
  2,3: intros [= <- <- <-]; split; [reflexivity|]; split;
       [intros _; repeat split; reflexivity
       | intros Hcc; split; [exact Hcc | intros Hne; contradiction Hne; reflexivity]].
  destruct (sign_header _ _) as [sig|e|] eqn:Hsign.
  2,3: intros [= <- <- <-]; split; [reflexivity|]; split;
       [intros _; repeat split; reflexivity
       | intros Hcc; split; [exact Hcc | intros Hne; contradiction Hne; reflexivity]].
  destruct (_chain_client c) as [cc|] eqn:Hcc.
  - destruct (chain_client_broadcast_block _ cc) as [cc'|e|];
      intros [= <- <- <-]; (split; [reflexivity|]); split;
        try (intros _; repeat split; reflexivity); intros [=].
  - destruct (_p2p_node c) as [n|] eqn:Hnode.
    2: intros [= <- <- <-]; split; [reflexivity|]; split;
       [intros [? [=]]
       | intros _; split; [exact Hcc | intros Hne; contradiction Hne; reflexivity]].
    destruct (node_broadcast _ n) as [n'|e|].
    2,3: intros [= <- <- <-]; split; [reflexivity|]; split;
       [intros [? [=]]
       | intros _; split; [exact Hcc | intros Hne; contradiction Hne; reflexivity]].
    rewrite on_new_block_run. cbn [set_p2p_node _chain_db].
    destruct (push_block _ _) as [db'|e|] eqn:Hpush; intros [= <- <- <-];
      (split; [reflexivity|]); (split; [intros [? [=]]|]); intros _;
      (split; [exact Hcc|]); try (intros Hne; contradiction Hne; reflexivity).
    intros _. exists blk0, sig. repeat split; assumption || reflexivity.
Qed.

(** X9. The echo asymmetry at the block broadcast site.  With the chain
    client a pass never touches the chain, the mempool or the wallet: the
    block is left to come back through [on_new_block].  With the p2p node, a
    pass that moves [_last_block] has pushed the signed block onto the own
    chain and erased its transactions from the mempool.  The trustee key is
    never changed. *)
Theorem trustee_iteration_by_transport (t : tick) c o c' lg :
  trustee_iteration t c = (o, c', lg) ->
  _trustee_key c' = _trustee_key c /\
  (is_Some (_chain_client c) ->
   _chain_db c' = _chain_db c /\ _pending_trxs c' = _pending_trxs c /\
   _wallet c' = _wallet c /\ _p2p_node c' = _p2p_node c) /\
  (_chain_client c = None ->
   _chain_client c' = None /\
   (_last_block c' <> _last_block c ->
    exists blk0 sig,
      generate_next_block (_chain_db c) (mempool_snapshot c) (_wallet c) = Returned blk0 /\
      sign_header (_trustee_key c) (header blk0) = Returned sig /\
      push_block (with_signature sig blk0) (_chain_db c) = Returned (_chain_db c') /\
      _pending_trxs c' = erase_trxs (trxs blk0) (_pending_trxs c))).
Proof. apply trustee_iteration_effect. Qed.

(** X10. When the wallet packs every transaction of the snapshot into the
    candidate, a pass with the p2p node that moves [_last_block] leaves the
    mempool empty. *)
Theorem trustee_iteration_drains_mempool (t : tick) c o c' lg :
  pending_keyed_by_id c ->
  _chain_client c = None ->
  (forall blk0,
      generate_next_block (_chain_db c) (mempool_snapshot c) (_wallet c) = Returned blk0 ->
      mempool_snapshot c ⊆ trxs blk0) ->
  trustee_iteration t c = (o, c', lg) ->
  _last_block c' <> _last_block c ->
  _pending_trxs c' = ∅.
Proof.
  intros Hkeyed Hcc Hpacks Hrun Hmoved.
  destruct (trustee_iteration_effect _ _ _ _ _ Hrun) as (_ & _ & Hpeer).
  destruct (Hpeer Hcc) as (_ & Hproduced).
  destruct (Hproduced Hmoved) as (blk0 & sig & Hgen & _ & _ & ->).
  apply map_empty. intros k.
  destruct (_pending_trxs c !! k) as [trx|] eqn:Hlook.
  - rewrite <- (Hkeyed k trx Hlook). apply erase_trxs_erased.
    apply (Hpacks blk0 Hgen). apply snapshot_elem_of; [exact Hkeyed|].
    rewrite (Hkeyed k trx Hlook). exact Hlook.
  - apply erase_trxs_lookup_None, Hlook.
Qed.

(** X11. Blocks are spaced: after a pass that produced a block, a later
    pass whose clock reading is no more than thirty seconds after the
    recorded time produces nothing and leaves the object as it is. *)
Theorem trustee_iteration_spacing (t1 t2 : tick) c o c1 l1 :
  trustee_iteration t1 c = (o, c1, l1) ->
  _last_block c1 <> _last_block c ->
  now_at_check t2 - now_after_publish t1 <= fc_seconds 30 ->
  trustee_iteration t2 c1 = (Returned tt, c1, []).
Proof.
  intros Hrun Hmoved Hsoon.
  destruct (trustee_iteration_last_block _ _ _ _ _ Hrun) as [Hsame | (_ & _ & Hnew)];
    [contradiction|].
  rewrite trustee_iteration_run.
  destruct (production_due _ _ _) eqn:Hdue; [|reflexivity].
  apply production_due_spec in Hdue as [_ Hlate]. rewrite Hnew in Hlate. lia.
Qed.

(** ** What the inbound handler leaves alone *)

Lemma on_new_block_frame (blk : block) c o c' lg :
  on_new_block blk c = (o, c', lg) ->
  (o = Returned tt \/ c' = c) /\
  _chain_client c' = _chain_client c /\ _p2p_node c' = _p2p_node c /\
  _last_block c' = _last_block c /\ _trustee_key c' = _trustee_key c /\
  _pending_trxs c' ⊆ _pending_trxs c.
Proof.
  rewrite on_new_block_run.
  destruct (push_block blk (_chain_db c)); intros [= <- <- <-].
  - split; [left; reflexivity|]. split_and!; try reflexivity.
    apply erase_trxs_subseteq.
  - split; [right; reflexivity|]. split_and!; reflexivity.
  - split; [right; reflexivity|]. split_and!; reflexivity.
Qed.

Lemma on_new_transaction_frame trx c o c' lg :
  on_new_transaction trx c = (o, c', lg) ->
  (o = Returned tt \/ c' = c) /\
  _chain_client c' = _chain_client c /\ _p2p_node c' = _p2p_node c /\
  _last_block c' = _last_block c /\ _trustee_key c' = _trustee_key c /\
  _chain_db c' = _chain_db c /\ _wallet c' = _wallet c /\
  _pending_trxs c ⊆ _pending_trxs c' /\
  (size (_pending_trxs c') <= S (size (_pending_trxs c)))%nat.
Proof.
  rewrite on_new_transaction_run.
  destruct (evaluate_transaction trx (_chain_db c)) as [[]| |].
  - destruct (_pending_trxs c !! transaction_id trx) eqn:Hold; intros [= <- <- <-].
    + split; [left; reflexivity|]. split_and!; first [reflexivity | lia].
    + split; [left; reflexivity|]. cbn [set_pending_trxs _chain_client _p2p_node
        _last_block _trustee_key _chain_db _wallet _pending_trxs].
      split_and!;
        first [ reflexivity
              | apply insert_subseteq, Hold
              | rewrite map_size_insert_None by exact Hold; lia ].
  - intros [= <- <- <-]. split; [right; reflexivity|].
    split_and!; first [reflexivity | lia].
  - intros [= <- <- <-]. split; [right; reflexivity|].
    split_and!; first [reflexivity | lia].
Qed.

(** X12. The inbound handler never sends and never touches the trustee's
    clock or key: after [on_new_block] and after [on_new_transaction] both
    transports, [_last_block] and [_trustee_key] are as before.  A block
    only removes pending transactions; a transaction leaves chain and wallet
    alone, removes nothing and adds at most one entry. *)
Theorem inbound_handler_frame c :
  (forall (blk : block) o c' lg,
      on_new_block blk c = (o, c', lg) ->
      _chain_client c' = _chain_client c /\ _p2p_node c' = _p2p_node c /\
      _last_block c' = _last_block c /\ _trustee_key c' = _trustee_key c /\
      _pending_trxs c' ⊆ _pending_trxs c) /\
  (forall trx o c' lg,
      on_new_transaction trx c = (o, c', lg) ->
      _chain_client c' = _chain_client c /\ _p2p_node c' = _p2p_node c /\
      _last_block c' = _last_block c /\ _trustee_key c' = _trustee_key c /\
      _chain_db c' = _chain_db c /\ _wallet c' = _wallet c /\
      _pending_trxs c ⊆ _pending_trxs c' /\
      (size (_pending_trxs c') <= S (size (_pending_trxs c)))%nat).
Proof.
  split.
  - intros blk o c' lg Hrun. apply (on_new_block_frame _ _ _ _ _ Hrun).
  - intros trx o c' lg Hrun. apply (on_new_transaction_frame _ _ _ _ _ Hrun).
Qed.

(** X13. [broadcast_transaction] does nothing when the transport refuses:
    the exception of the chain client or of the node reaches the caller and
    the object is as before, so with the node the transaction is not applied
    locally either.  With the chain client an accepted transaction is only
    forwarded: the call returns without consulting the chain and changes
    nothing but the chain client. *)
Theorem broadcast_transaction_needs_transport trx c :
  (forall cc e,
      _chain_client c = Some cc ->
      chain_client_broadcast_transaction trx cc = Thrown e ->
      broadcast_transaction trx c = (Thrown e, c, [])) /\
  (forall n e,
      _chain_client c = None -> _p2p_node c = Some n ->
      node_broadcast (trx_message trx) n = Thrown e ->
      broadcast_transaction trx c = (Thrown e, c, [])) /\
  (forall cc cc',
      _chain_client c = Some cc ->
      chain_client_broadcast_transaction trx cc = Returned cc' ->
      broadcast_transaction trx c = (Returned tt, set_chain_client (Some cc') c, [])).
Proof.
  rewrite broadcast_transaction_run. repeat split.
  - intros cc e -> ->. reflexivity.
  - intros n e -> -> ->. reflexivity.
  - intros cc cc' -> ->. reflexivity.
Qed.

(** ** From receipt to inclusion *)

Lemma snapshot_has_id (i : Z) c :
  pending_keyed_by_id c ->
  i ∈ transaction_id <$> mempool_snapshot c <-> is_Some (_pending_trxs c !! i).
Proof.
  intros Hkeyed. rewrite snapshot_ids by exact Hkeyed.
  rewrite list_elem_of_fmap. split.
  - intros ([k trx] & -> & Hin). apply elem_of_map_to_list in Hin. cbn. eauto.
  - intros [trx Hlook]. exists (i, trx). split; [reflexivity|].
    apply elem_of_map_to_list, Hlook.
Qed.

(** X14. A transaction's way through the mempool.  Once
    [on_new_transaction] has returned for it, its id is among the ids of the
    snapshot; once a block containing it has been applied by
    [on_new_block], its id is in no snapshot any more. *)
Theorem transaction_lifecycle trx (blk : block) c c1 lg1 (db' : chain_database) :
  pending_keyed_by_id c ->
  on_new_transaction trx c = (Returned tt, c1, lg1) ->
  trx ∈ trxs blk ->
  push_block blk (_chain_db c1) = Returned db' ->
  transaction_id trx ∈ transaction_id <$> mempool_snapshot c1 /\
  exists c2,
    on_new_block blk c1 = (Returned tt, c2, [(info, "")]) /\
    transaction_id trx ∉ transaction_id <$> mempool_snapshot c2.
Proof.
  intros Hkeyed Hrecv Hin Hpush.
  pose proof (on_new_transaction_keeps_keys _ _ _ _ _ Hkeyed Hrecv) as Hkeyed1.
  split.
  - apply snapshot_has_id; [exact Hkeyed1|].
    revert Hrecv. rewrite on_new_transaction_run.
    destruct (evaluate_transaction trx (_chain_db c)); [|discriminate ..].
    destruct (_pending_trxs c !! transaction_id trx) eqn:Hold; intros [= <- <-].
    + rewrite Hold. eauto.
    + cbn [set_pending_trxs _pending_trxs]. rewrite lookup_insert_eq. eauto.
  - destruct (on_new_block blk c1) as [[o2 c2] l2] eqn:Hblock.
    pose proof (on_new_block_keeps_keys _ _ _ _ _ Hkeyed1 Hblock) as Hkeyed2.
    revert Hblock. rewrite on_new_block_run, Hpush. intros [= <- <- <-].
    eexists. split; [reflexivity|].
    rewrite snapshot_has_id by exact Hkeyed2.
    cbn [set_wallet set_pending_trxs _pending_trxs].
    rewrite (erase_trxs_erased _ _ _ Hin). intros [? [=]].
Qed.

(** ** The message dispatcher *)

(** X15. [handle_message] ignores a message whose tag is neither of the two
    it knows, passes on the exception of a payload that does not unpack
    without touching the object, and otherwise does what the inbound handler
    does: it returns or leaves the object as it was, and never touches the
    transports or [_last_block]. *)
Theorem handle_message_dispatch (m : wire_message) c :
  (msg_type m <> block_message_type -> msg_type m <> trx_message_type ->
   handle_message m c = (Returned tt, c, [])) /\
  (forall e,
      msg_type m = block_message_type -> as_block_message m = Thrown e ->
      handle_message m c = (Thrown e, c, [])) /\
  (forall e,
      msg_type m = trx_message_type -> as_trx_message m = Thrown e ->
      handle_message m c = (Thrown e, c, [])) /\
  (forall o c' lg,
      handle_message m c = (o, c', lg) ->
      (o = Returned tt \/ c' = c) /\
      _chain_client c' = _chain_client c /\ _p2p_node c' = _p2p_node c /\
      _last_block c' = _last_block c).
Proof.
  rewrite handle_message_run. split; [|split; [|split]].
  - intros Hb Ht.
    destruct (msg_type m =? block_message_type) eqn:Heb;
      [apply Z.eqb_eq in Heb; contradiction|].
    destruct (msg_type m =? trx_message_type) eqn:Het;
      [apply Z.eqb_eq in Het; contradiction|].
    reflexivity.
  - intros e -> ->. rewrite Z.eqb_refl. reflexivity.
  - intros e -> ->.
    destruct (trx_message_type =? block_message_type) eqn:Heb;
      [apply Z.eqb_eq in Heb; destruct (message_types_distinct Heb)|].
    rewrite Z.eqb_refl. reflexivity.
  - intros o c' lg.
    destruct (msg_type m =? block_message_type).
    + destruct (as_block_message m) as [bm|e|];
        [| intros [= <- <- <-]; split; [right; reflexivity | repeat split] ..].
      destruct (on_new_block (bm_block bm) c) as [[o1 c1] l1] eqn:Hblock.
      intros [= <- <- <-].
      destruct (on_new_block_frame _ _ _ _ _ Hblock) as (H1 & H2 & H3 & H4 & _).
      repeat split; assumption.
    + destruct (msg_type m =? trx_message_type);
        [| intros [= <- <- <-]; split; [left; reflexivity | repeat split]].
      destruct (as_trx_message m) as [trx|e|];
        [| intros [= <- <- <-]; split; [right; reflexivity | repeat split] ..].
      intros Hrun.
      destruct (on_new_transaction_frame _ _ _ _ _ Hrun) as (H1 & H2 & H3 & H4 & _).
      repeat split; assumption.
Qed.

End MoreProperties.

(** * The further properties on the small node *)

Import DemoNet.

Lemma peer_with_5_keyed : pending_keyed_by_id peer_with_5.
Proof.
  apply map_Forall_insert_2; [reflexivity | apply map_Forall_empty].
Defined.

Lemma peer_with_5_6_keyed : pending_keyed_by_id peer_with_5_6.
Proof.
  apply map_Forall_insert_2; [reflexivity|].
  apply map_Forall_insert_2; [reflexivity | apply map_Forall_empty].
Defined.

Lemma demo_chain_indexed : chain_indexed (demo_chain 10).
Proof.
  intros n hdr Hfetch.
  change (header <$> demo_nth n (demo_chain 10) = Some hdr) in Hfetch.
  unfold demo_nth in Hfetch.
  destruct (n <? 0) eqn:Hneg; [discriminate|]. apply Z.ltb_ge in Hneg.
  remember (Z.to_nat n) as height eqn:Hheight.
  assert (Hn : n = Z.of_nat height) by lia. clear Hheight Hneg. subst n.
  do 11 (destruct height as [|height];
         [ vm_compute in Hfetch; injection Hfetch as <-;
           split; [reflexivity | eexists; split; reflexivity] |]).
  vm_compute in Hfetch. discriminate.
Defined.

(** After transaction 6 has been received the mempool is still keyed by
    id. *)
Lemma pending_keyed_by_id_invariant_example :
  pending_keyed_by_id (snd (fst (on_new_transaction 6 peer_with_5))).
Proof.
  destruct (pending_keyed_by_id_invariant peer_with_5 peer_with_5_keyed) as (Hrecv & _).
  destruct (on_new_transaction (B:=demo_blockchain) 6 peer_with_5) as [[o c'] lg] eqn:Hrun.
  exact (Hrecv _ o c' lg Hrun).
Defined.

Lemma get_pending_transactions_snapshot_example :
  exists l,
    get_pending_transactions peer_with_5_6 = (Returned l, peer_with_5_6, []) /\
    length l = 2%nat /\
    NoDup (demo_transaction_id <$> l).
Proof.
  destruct (get_pending_transactions_snapshot peer_with_5_6 peer_with_5_6_keyed)
    as (l & Hrun & Hlen & Hnodup & _).
  exists l. split; [exact Hrun|]. split; [|exact Hnodup].
  rewrite Hlen. vm_compute. reflexivity.
Defined.

(** Block 5 of the synced peer is served under its id 505. *)
Lemma get_item_serves_blocks_only_example :
  fst (fst (get_item {| item_type := block_message_type; item_hash := 505 |} synced_peer))
  = Returned (block_message 505 (demo_block 5) 9).
Proof.
  destruct (get_item_serves_blocks_only
              {| item_type := block_message_type; item_hash := 505 |} synced_peer)
    as (_ & Hserved & _).
  apply Hserved. split; [reflexivity|].
  exists 5, (demo_block 5). repeat split; reflexivity.
Defined.

Lemma get_item_ids_page_bounds_example :
  Z.of_nat (length [504; 505; 506; 507]) <= 4 /\
  (3 <> 0 -> Z.of_nat (length [504; 505; 506; 507]) = 4) /\
  Forall (fun h => exists n, id_of (_chain_db synced_peer) n = Some h) [504; 505; 506; 507].
Proof.
  destruct (get_item_ids_page_bounds
              {| item_type := block_message_type; item_hash := 503 |} 4 synced_peer
              [504; 505; 506; 507] 3 synced_peer [])
    as (_ & _ & Hlen & _ & Hfull & Hids); [lia | reflexivity |].
  split; [exact Hlen|]. split; [exact Hfull | exact Hids].
Defined.

Lemma get_item_ids_results_are_served_example :
  exists blk,
    header_id (header blk) = 506 /\
    get_item {| item_type := block_message_type; item_hash := 506 |} synced_peer
    = (Returned (block_message 506 blk (trustee_signature (header blk))), synced_peer, []).
Proof.
  apply (get_item_ids_results_are_served
           {| item_type := block_message_type; item_hash := 503 |} 4 synced_peer
           [504; 505; 506; 507] 3 synced_peer [] 506).
  - exact demo_chain_indexed.
  - lia.
  - reflexivity.
  - apply list_elem_of_further, list_elem_of_further, list_elem_of_here.
Defined.

(** Head 10: four ids after block 3, then two more after the last of them. *)
Lemma get_item_ids_follow_up_example :
  exists hs1 r1 last_hash hs2,
    get_item_ids {| item_type := block_message_type; item_hash := 503 |} 4 synced_peer
    = (Returned (hs1, r1), synced_peer, []) /\
    last hs1 = Some last_hash /\
    get_item_ids {| item_type := block_message_type; item_hash := last_hash |} 2 synced_peer
    = (Returned (hs2, 1), synced_peer, []) /\
    hs1 ++ hs2 = [504; 505; 506; 507; 508; 509].
Proof.
  destruct (get_item_ids_follow_up synced_peer 10 3 4 2 503)
    as (hs1 & r1 & last_hash & hs2 & Hrun1 & Hlast & Hrun2 & Hids).
  - exact demo_chain_contiguous.
  - exact demo_chain_indexed.
  - reflexivity.
  - lia.
  - unfold uint32_max. lia.
  - unfold uint32_max. lia.
  - exists hs1, r1, last_hash, hs2.
    split; [exact Hrun1|]. split; [exact Hlast|]. split; [exact Hrun2|].
    assert (Heq : Some (hs1 ++ hs2) = Some [504; 505; 506; 507; 508; 509])
      by (rewrite <- Hids; vm_compute; reflexivity).
    injection Heq as Heq. exact Heq.
Defined.

Lemma connect_to_p2p_network_sync_point_example :
  connect_to_p2p_network server_client_with_5 = (Returned tt, server_client_with_5, []) /\
  connect_to_p2p_network synced_peer = (Returned tt, synced_peer, []) /\
  get_item_ids (head_item_id (_chain_db fresh_peer)) 100 fresh_peer
  = (Returned ([], 0), fresh_peer, []) /\
  get_item_ids (head_item_id (_chain_db synced_peer)) 100 synced_peer
  = (Returned ([], 0), synced_peer, []).
Proof.
  split; [|split; [|split]].
  - apply (connect_to_p2p_network_sync_point server_client_with_5). reflexivity.
  - apply (proj1 (proj2 (connect_to_p2p_network_sync_point synced_peer)) [] [] []);
      reflexivity.
  - apply (proj1 (proj2 (proj2 (connect_to_p2p_network_sync_point fresh_peer))) 100);
      [unfold uint32_max; lia | reflexivity | reflexivity].
  - apply (proj2 (proj2 (proj2 (connect_to_p2p_network_sync_point synced_peer))) 100 10);
      [unfold uint32_max; lia | exact demo_chain_contiguous
      | unfold uint32_max; lia | reflexivity].
Defined.

(** A pass of the client of a server that sends a block leaves chain and
    mempool to the echo. *)
Lemma trustee_iteration_by_transport_example :
  _last_block (snd (fst (trustee_iteration (tick_at 31 32) server_client_due)))
  = fc_seconds 32 /\
  _chain_db (snd (fst (trustee_iteration (tick_at 31 32) server_client_due)))
  = _chain_db server_client_due /\
  _pending_trxs (snd (fst (trustee_iteration (tick_at 31 32) server_client_due)))
  = _pending_trxs server_client_due.
Proof.
  split; [vm_compute; reflexivity|].
  destruct (trustee_iteration (tick_at 31 32) server_client_due) as [[o c'] lg] eqn:Hrun.
  destruct (trustee_iteration_by_transport _ _ _ _ _ Hrun) as (_ & Hserver & _).
  destruct Hserver as (Hdb & Hpending & _); [cbn; eauto|].
  split; [exact Hdb | exact Hpending].
Defined.

(** The peer with transactions 5 and 6 pending mints them at 31 s and its
    mempool is empty afterwards. *)
Lemma trustee_iteration_drains_mempool_example :
  _pending_trxs (snd (fst (trustee_iteration (tick_at 31 32) peer_with_5_6))) = ∅.
Proof.
  assert (Hmoved : _last_block (snd (fst (trustee_iteration (tick_at 31 32) peer_with_5_6)))
                   <> _last_block peer_with_5_6) by (vm_compute; discriminate).
  destruct (trustee_iteration (tick_at 31 32) peer_with_5_6) as [[o c'] lg] eqn:Hrun.
  apply (trustee_iteration_drains_mempool (tick_at 31 32) peer_with_5_6 o c' lg).
  - exact peer_with_5_6_keyed.
  - reflexivity.
  - intros blk0 Hgen. injection Hgen as <-. intros trx Hin. exact Hin.
  - exact Hrun.
  - exact Hmoved.
Defined.

(** A block went out at 32 s; at 50 s nothing is produced although two
    transactions are pending. *)
Lemma trustee_iteration_spacing_example :
  trustee_iteration (tick_at 50 51)
    (snd (fst (trustee_iteration (tick_at 31 32) server_client_due)))
  = (Returned tt, snd (fst (trustee_iteration (tick_at 31 32) server_client_due)), []).
Proof.
  assert (Hmoved : _last_block (snd (fst (trustee_iteration (tick_at 31 32) server_client_due)))
                   <> _last_block server_client_due) by (vm_compute; discriminate).
  destruct (trustee_iteration (tick_at 31 32) server_client_due) as [[o c1] l1] eqn:Hrun.
  apply (trustee_iteration_spacing (tick_at 31 32) (tick_at 50 51) server_client_due o c1 l1).
  - exact Hrun.
  - exact Hmoved.
  - vm_compute. discriminate.
Defined.

(** With the network down nothing is sent and nothing is applied. *)
Lemma broadcast_transaction_needs_transport_example :
  broadcast_transaction (N:=offline_network) 6 (offline_client true)
  = (Thrown (exception 4), offline_client true, []) /\
  broadcast_transaction (N:=offline_network) 6 (offline_client false)
  = (Thrown (exception 4), offline_client false, []).
Proof.
  split.
  - apply (proj1 (proj2 (broadcast_transaction_needs_transport
                           (B:=demo_blockchain) (N:=offline_network)
                           6 (offline_client true))) tt (exception 4));
      reflexivity.
  - apply (proj1 (broadcast_transaction_needs_transport
                    (B:=demo_blockchain) (N:=offline_network)
                    6 (offline_client false)) tt (exception 4));
      reflexivity.
Defined.

(** Transaction 6: received, then included in the genesis block. *)
Lemma transaction_lifecycle_example :
  demo_transaction_id 6
  ∈ demo_transaction_id <$> mempool_snapshot (snd (fst (on_new_transaction 6 peer_with_5))) /\
  exists c2,
    on_new_block (block_of 0 [6]) (snd (fst (on_new_transaction 6 peer_with_5)))
    = (Returned tt, c2, [(info, "")]) /\
    demo_transaction_id 6 ∉ demo_transaction_id <$> mempool_snapshot c2.
Proof.
  assert (Hret : fst (fst (on_new_transaction (B:=demo_blockchain) 6 peer_with_5))
                 = Returned tt) by reflexivity.
  destruct (on_new_transaction (B:=demo_blockchain) 6 peer_with_5) as [[o c1] lg1] eqn:Hrun.
  cbn [fst snd] in *. subst o.
  assert (Hdb : _chain_db c1 = []).
  { change c1 with (snd (fst (Returned tt, c1, lg1))). rewrite <- Hrun. reflexivity. }
  apply (transaction_lifecycle (B:=demo_blockchain) 6 (block_of 0 [6]) peer_with_5 c1 lg1
           [block_of 0 [6]]).
  - exact peer_with_5_keyed.
  - exact Hrun.
  - apply list_elem_of_here.
  - rewrite Hdb. reflexivity.
Defined.

(** A message with tag 7 is ignored; a transaction message with no payload
    fails to unpack. *)
Lemma handle_message_dispatch_example :
  handle_message {| msg_type := 7; data := [1] |} peer_with_5
  = (Returned tt, peer_with_5, []) /\
  handle_message {| msg_type := trx_message_type; data := [] |} peer_with_5
  = (Thrown (exception 5), peer_with_5, []).
Proof.
  split.
  - apply (handle_message_dispatch {| msg_type := 7; data := [1] |} peer_with_5);
      vm_compute; discriminate.
  - apply (proj1 (proj2 (proj2 (handle_message_dispatch
                                  {| msg_type := trx_message_type; data := [] |}
                                  peer_with_5))) (exception 5));
      reflexivity.
Defined.
